(** * The Karplus-Strong notebook: a shallow embedding and its properties

    Source: [Python Notebooks/module1_karplus-strong_algorithm.ipynb]
    (a Python 2.7 notebook).  The functions modelled are [KS_1], [KS],
    [freq] and [ks_chord].

    Modelling conventions.
    - Python integers are [Z]; sequence lengths and indices are [Z] as
      well, with Python's rule for negative indices written out.
    - Python floats and numpy float64 samples are idealised as real
      numbers [R]: no rounding, no overflow, no NaN.  A statement that
      needs a float power to succeed keeps it within the range of a
      double (a fixed or bounded [alpha], or [power_in_double_range]),
      and a statement about sample values writes the operations in the
      order in which the loop performs them.
    - Exceptions are values of [exn]; a computation that may raise
      returns a [result].
    - The [while] loop of [KS_1] may run forever (empty buffer), so it is
      modelled with fuel and returns [None] when the fuel runs out.
    - [np.random.randn] is an external random source; [ks_chord] is
      parameterised by it and threads its state explicitly. *)

From Stdlib Require Import Reals Lra Lia ZArith String Ascii Bool DecimalString.
From stdpp Require Import base list.
Local Open Scope Z_scope.

(** ** A small model of the Python run time used by the notebook *)

Module Py.

Inductive exn : Set :=
| ValueError
| ZeroDivisionError
| IndexError
| KeyError.

Inductive result (A : Type) : Type :=
| Ok (a : A)
| Raise (e : exn).
Arguments Ok {A} a.
Arguments Raise {A} e.

#[global] Instance result_ret : MRet result := fun A a => Ok a.
#[global] Instance result_bind : MBind result := fun A B f m =>
  match m with
  | Ok a => f a
  | Raise e => Raise e
  end.

(** [len(l)] *)
Definition len {A} (l : list A) : Z := Z.of_nat (length l).

(** Index normalisation: a negative index counts from the end. *)
Definition norm_index (i n : Z) : Z := if i <? 0 then i + n else i.

(** [l[i]] as an expression. *)
Definition getitem {A} (l : list A) (i : Z) : result A :=
  let j := norm_index i (len l) in
  if j <? 0 then Raise IndexError
  else match l !! Z.to_nat j with
       | Some v => Ok v
       | None => Raise IndexError
       end.

(** [l[i] = v] as a statement; the updated buffer is returned. *)
Definition setitem {A} (l : list A) (i : Z) (v : A) : result (list A) :=
  let j := norm_index i (len l) in
  if (j <? 0) || (len l <=? j) then Raise IndexError
  else Ok (<[Z.to_nat j := v]> l).

(** [l[0:stop]] *)
Definition slice_to {A} (l : list A) (stop : Z) : list A :=
  let s := if stop <? 0 then Z.max 0 (stop + len l) else Z.min stop (len l) in
  take (Z.to_nat s) l.

(** [np.zeros(N)] *)
Definition np_zeros (N : Z) : result (list R) :=
  if N <? 0 then Raise ValueError else Ok (replicate (Z.to_nat N) 0%R).

(** [for n in range(lo, hi): s = body(n, s)] *)
Fixpoint for_loop {St} (k : nat) (n : Z) (body : Z -> St -> result St) (s : St)
  : result St :=
  match k with
  | O => Ok s
  | S k' => s' ← body n s; for_loop k' (n + 1) body s'
  end.

Definition for_range {St} (lo hi : Z) (body : Z -> St -> result St) (s : St)
  : result St :=
  for_loop (Z.to_nat (hi - lo)) lo body s.

(** Is the real [r] an integer? *)
Definition is_integer (r : R) : bool :=
  if Req_dec_T r (IZR (Int_part r)) then true else false.

(** [x ** y] on floats, Python 2 rules: anything to the power 0 is 1;
    0 to a negative power raises [ZeroDivisionError]; a negative base
    with a fractional exponent raises [ValueError].  The value is the
    exact real power: the [OverflowError] of a result beyond the range
    of a double is outside this model. *)
Definition py_pow (x y : R) : result R :=
  if Req_dec_T y 0 then Ok 1%R
  else if Rlt_dec 0 x then Ok (Rpower x y)
  else if Req_dec_T x 0 then
    (if Rlt_dec 0 y then Ok 0%R else Raise ZeroDivisionError)
  else if is_integer y then Ok (powerRZ x (Int_part y))
  else Raise ValueError.

(** [x / y] on floats *)
Definition py_div (x y : R) : result R :=
  if Req_dec_T y 0 then Raise ZeroDivisionError else Ok (x / y)%R.

End Py.
Import Py.

#[global] Instance R_inhabited : Inhabited R := populate 0%R.

(** Total read of a sample, for statements about buffers. *)
Definition sample (l : list R) (i : Z) : R := l !!! Z.to_nat i.

(** ** The naive variant [KS_1] *)

(** The [while len(y) < N] loop; [None] when the fuel is exhausted. *)
Fixpoint KS_1_loop {A} (fuel : nat) (x y : list A) (N : Z) : option (list A) :=
  if len y <? N then
    match fuel with
    | O => None
    | S fuel' => KS_1_loop fuel' x (y ++ x) N
    end
  else Some y.

Definition KS_1 {A} (fuel : nat) (x : list A) (N : Z) : option (list A) :=
  match KS_1_loop fuel x x N with
  | Some y => Some (slice_to y (N + 1))
  | None => None
  end.

(** ** The Karplus-Strong loop [KS] *)

Definition REF_LEN : Z := 50.

(** The body of the [for] loop of [KS]:
    [y[n] = (x[n] if n < M else 0) + a * (y[n-M] if n-M >= 0 else 0)]. *)
Definition KS_body (x : list R) (M : Z) (a : R) (n : Z) (y : list R)
  : result (list R) :=
  xn ← (if n <? M then getitem x n else Ok 0%R);
  yd ← (if n - M >=? 0 then getitem y (n - M) else Ok 0%R);
  setitem y n (xn + a * yd)%R.

Definition KS (x : list R) (N : Z) (alpha : R) : result (list R) :=
  let M := len x in
  a ← py_pow alpha (IZR M / IZR REF_LEN);
  y ← np_zeros N;
  for_range 0 N (KS_body x M a) y.

(** ** The intermediate variants [KS_2] and [KS_3] *)

(** The body of the loop of [KS_2]:
    [y[n] = (x[n] if n < M else 0) + (y[n-M] if n-M >= 0 else 0)]. *)
Definition KS_2_body (x : list R) (M : Z) (n : Z) (y : list R)
  : result (list R) :=
  xn ← (if n <? M then getitem x n else Ok 0%R);
  yd ← (if n - M >=? 0 then getitem y (n - M) else Ok 0%R);
  setitem y n (xn + yd)%R.

Definition KS_2 (x : list R) (N : Z) : result (list R) :=
  let M := len x in
  y ← np_zeros N;
  for_range 0 N (KS_2_body x M) y.

(** [KS_3] runs the loop body of [KS] with [alpha] itself as the
    feedback gain. *)
Definition KS_3 (x : list R) (N : Z) (alpha : R) : result (list R) :=
  let M := len x in
  y ← np_zeros N;
  for_range 0 N (KS_body x M alpha) y.

(** ** Note names to frequencies: [freq] *)

(** The decimal digits ['0'] to ['9']. *)
Definition is_digit (c : ascii) : bool :=
  let k := Z.of_N (N_of_ascii c) in
  (48 <=? k) && (k <=? 57).

(** [int(c)] for a one-character string [c]. *)
Definition py_int_char (c : ascii) : result Z :=
  if is_digit c then Ok (Z.of_N (N_of_ascii c) - 48) else Raise ValueError.

(** [d[k]] for a dict with one-character keys, kept as an association
    list. *)
Fixpoint dict_getitem {V} (d : list (ascii * V)) (k : ascii) : result V :=
  match d with
  | [] => Raise KeyError
  | (k', v) :: d' => if Ascii.eqb k' k then Ok v else dict_getitem d' k
  end.

Definition SEMITONES : list (ascii * Z) :=
  [("A"%char, 0); ("B"%char, 2); ("C"%char, -9); ("D"%char, -7);
   ("E"%char, -5); ("F"%char, -4); ("G"%char, -2)].

(** The last three statements of [freq], reached with [acc] and [octave]
    set. *)
Definition freq_tail (c0 : ascii) (acc octave : Z) : result R :=
  st ← dict_getitem SEMITONES c0;
  let n := 12 * (octave - 4) + st + acc in
  p ← py_pow 2 (IZR n / 12);
  Ok (440 * p)%R.

Definition freq (note : string) : result R :=
  let s := list_ascii_of_string note in
  if len s <? 2 then Ok 0%R
  else if len s >? 3 then Ok 0%R
  else
    c0 ← getitem s 0;
    if Ascii.ltb c0 "A" then Ok 0%R
    else if Ascii.ltb "G" c0 then Ok 0%R
    else if len s =? 3 then
      c1 ← getitem s 1;
      if Ascii.eqb c1 "b" then
        c2 ← getitem s 2; octave ← py_int_char c2; freq_tail c0 (-1) octave
      else if Ascii.eqb c1 "#" then
        c2 ← getitem s 2; octave ← py_int_char c2; freq_tail c0 1 octave
      else Ok 0%R
    else
      c1 ← getitem s 1; octave ← py_int_char c1; freq_tail c0 0 octave.

(** ** Chords: [ks_chord] *)

Definition Fs : Z := 16000.

(** [np.round(r)] followed by [int]: round to nearest, ties to even. *)
Definition np_round (r : R) : Z :=
  let f := Int_part r in
  let d := (r - IZR f)%R in
  if Rlt_dec d (1 / 2) then f
  else if Rlt_dec (1 / 2) d then f + 1
  else if Z.even f then f else f + 1.

(** [gain * v] for a scalar and an array. *)
Definition np_scale (gain : R) (v : list R) : list R := map (Rmult gain) v.

(** [u + v] for two arrays, with numpy's broadcasting of a one-element
    array. *)
Definition np_add (u v : list R) : result (list R) :=
  if len u =? len v then Ok (zip_with Rplus u v)
  else match v, u with
       | [b], _ => Ok (map (fun a => a + b)%R u)
       | _, [a] => Ok (map (Rplus a) v)
       | _, _ => Raise ValueError
       end.

Section Chord.

(** The random source: its state and one draw from it. *)
Context {Rng : Type} (draw : Rng -> R * Rng).

Fixpoint randn_loop (k : nat) (g : Rng) : list R * Rng :=
  match k with
  | O => ([], g)
  | S k' =>
      let '(v, g1) := draw g in
      let '(vs, g2) := randn_loop k' g1 in
      (v :: vs, g2)
  end.

(** [np.random.randn(k)] *)
Definition np_random_randn (k : Z) (g : Rng) : result (list R * Rng) :=
  if k <? 0 then Raise ValueError else Ok (randn_loop (Z.to_nat k) g).

(** The loop over [chord.iteritems()]; the chord is the list of its
    items in iteration order. *)
Fixpoint ks_chord_loop (items : list (string * R)) (N : Z) (alpha : R)
    (y : list R) (g : Rng) : result (list R * Rng) :=
  match items with
  | [] => Ok (y, g)
  | (note, gain) :: rest =>
      f ← freq note;
      q ← py_div (IZR Fs) f;
      '(x, g') ← np_random_randn (np_round q) g;
      v ← KS x N alpha;
      y' ← np_add y (np_scale gain v);
      ks_chord_loop rest N alpha y' g'
  end.

Definition ks_chord (chord : list (string * R)) (N : Z) (alpha : R) (g : Rng)
  : result (list R * Rng) :=
  y ← np_zeros N;
  ks_chord_loop chord N alpha y g.

End Chord.

(** ** The specification's vocabulary *)

(** The pitch of the specification's data model and its note name. *)
Inductive Letter : Set := LA | LB | LC | LD | LE | LF | LG.
Inductive Accidental : Set := Natural | Sharp | Flat.
Record Pitch : Set := mkPitch {
  letter : Letter;
  accidental : Accidental;
  octave : Z
}.

Definition letter_char (l : Letter) : ascii :=
  match l with
  | LA => "A" | LB => "B" | LC => "C" | LD => "D"
  | LE => "E" | LF => "F" | LG => "G"
  end%char.

Definition accidental_token (a : Accidental) : string :=
  match a with
  | Natural => ""
  | Sharp => "#"
  | Flat => "b"
  end%string.

Definition note_name (p : Pitch) : string :=
  String (letter_char (letter p))
    (accidental_token (accidental p)
       ++ NilZero.string_of_int (Z.to_int (octave p)))%string.

(** Raising a pitch by one octave. *)
Definition octave_up (p : Pitch) : Pitch :=
  mkPitch (letter p) (accidental p) (octave p + 1).

(** A first character that is no letter from A to G. *)
Definition outside_A_G (c : ascii) : bool :=
  Ascii.ltb c "A" || Ascii.ltb "G" c.

(** The semitone table as the specification words it. *)
Definition semitoneOffset (l : Letter) : Z :=
  match l with
  | LA => 0 | LB => 2 | LC => -9 | LD => -7
  | LE => -5 | LF => -4 | LG => -2
  end.

Definition accidental_value (a : Accidental) : Z :=
  match a with
  | Natural => 0
  | Sharp => 1
  | Flat => -1
  end.

Definition semitones_from_A4 (p : Pitch) : Z :=
  12 * (octave p - 4) + semitoneOffset (letter p) + accidental_value (accidental p).

(** The frequency the specification assigns to a pitch. *)
Definition equal_tempered (p : Pitch) : R :=
  (440 * Rpower 2 (IZR (semitones_from_A4 p) / 12))%R.

(** The excitation term [(x[n] if n < M else 0)]. *)
Definition excitation_term (x : list R) (n : Z) : R :=
  if n <? len x then sample x n else 0%R.

(** The recurrence of the specification, read on a finished buffer [y]
    with coefficient [a]. *)
Definition recurrence_holds (x : list R) (N : Z) (a : R) (y : list R) : Prop :=
  len y = N /\
  forall n, 0 <= n < N ->
    sample y n =
      ((if n <? len x then sample x n else 0)
       + a * (if 0 <=? n - len x then sample y (n - len x) else 0))%R.

(** The contract of [synthesize] as the specification states it, with the
    reference length an argument. *)
Definition synthesize_contract (x : list R) (N : Z) (alpha : R) (referenceLength : Z)
  : Prop :=
  exists a y,
    py_pow alpha (IZR (len x) / IZR referenceLength) = Ok a /\
    KS x N alpha = Ok y /\
    recurrence_holds x N a y.

(** A bound well inside the range of a double, whose largest value is
    just below [2 ^ 1024]. *)
Definition DBL_SAFE : R := (2 ^ 1023)%R.

(** The coefficient [alpha ** (M / 50)] of [KS], when it is defined, is
    within the range of a double, so that the float power does not
    overflow. *)
Definition power_in_double_range (alpha : R) (M : Z) : Prop :=
  forall a, py_pow alpha (IZR M / IZR REF_LEN) = Ok a -> (Rabs a <= DBL_SAFE)%R.

(** [k] passes through the feedback loop, multiplied in the order of the
    loop: [a * (a * (... (a * v)))]. *)
Definition passes (a : R) (k : nat) (v : R) : R := Nat.iter k (Rmult a) v.

(** [y] is a whole number of copies of [x]. *)
Definition copies_of {A} (x y : list A) : Prop :=
  (exists k, 0 <= k /\ len y = k * len x) /\
  forall i, (i < length y)%nat -> y !! i = x !! (i mod length x)%nat.

(** A note name that spells a pitch with a one-digit octave. *)
Definition well_formed_note (note : string) : Prop :=
  exists p, 0 <= octave p <= 9 /\ note = note_name p.

(** The chord of the notebook, [hdn_chord], in one iteration order. *)
Definition hdn_chord : list (string * R) :=
  [("D2", 2.2); ("D3", 3.0); ("F3", 1.0); ("G3", 3.2);
   ("F4", 1.0); ("A4", 1.0); ("C5", 1.0); ("G5", 3.5)]%R%string.

(** * Properties *)

(** ** Reads, writes and powers that succeed *)

Lemma getitem_in_range (l : list R) (i : Z) :
  0 <= i < len l -> getitem l i = Ok (sample l i).
Proof.
  intros [Hlo Hhi]. unfold getitem, norm_index, sample.
  destruct (Z.ltb_spec i 0) as [?|_]; [lia|].
  destruct (Z.ltb_spec i 0) as [?|_]; [lia|].
  destruct (l !! Z.to_nat i) as [v|] eqn:E.
  - now rewrite (list_lookup_total_correct _ _ _ E).
  - apply lookup_ge_None in E. unfold len in Hhi. lia.
Qed.

Lemma setitem_in_range {A} (l : list A) (i : Z) (v : A) :
  0 <= i < len l -> setitem l i v = Ok (<[Z.to_nat i := v]> l).
Proof.
  intros [Hlo Hhi]. unfold setitem, norm_index.
  destruct (Z.ltb_spec i 0) as [?|_]; [lia|].
  destruct (Z.ltb_spec i 0) as [?|_]; [lia|].
  destruct (Z.leb_spec (len l) i) as [?|_]; [lia|]. reflexivity.
Qed.

Lemma len_insert {A} (l : list A) (i : nat) (v : A) : len (<[i := v]> l) = len l.
Proof. unfold len. now rewrite length_insert. Qed.

Lemma sample_insert (l : list R) (i n : Z) (v : R) :
  0 <= i < len l -> 0 <= n ->
  sample (<[Z.to_nat i := v]> l) n = if n =? i then v else sample l n.
Proof.
  intros Hi Hn. unfold sample, len in *.
  destruct (Z.eqb_spec n i) as [->|Hne].
  - apply list_lookup_total_insert_eq. lia.
  - apply list_lookup_total_insert_ne. lia.
Qed.

Lemma sample_zeros (k : nat) (n : Z) : sample (replicate k 0%R) n = 0%R.
Proof.
  unfold sample. destruct (decide (Z.to_nat n < k)%nat) as [Hlt|Hge].
  - now apply lookup_total_replicate_2.
  - rewrite list_lookup_total_alt.
    assert (E : replicate k 0%R !! Z.to_nat n = None)
      by (apply lookup_replicate_None; lia).
    now rewrite E.
Qed.

Lemma py_pow_pos (x y : R) : (0 < x)%R -> py_pow x y = Ok (Rpower x y).
Proof.
  intros Hx. unfold py_pow.
  destruct (Req_dec_T y 0) as [->|_].
  - now rewrite Rpower_O.
  - destruct (Rlt_dec 0 x); [reflexivity | contradiction].
Qed.

Lemma Rpower_one_base (y : R) : Rpower 1 y = 1%R.
Proof. unfold Rpower. rewrite ln_1, Rmult_0_r. apply exp_0. Qed.

Lemma py_pow_one (y : R) : py_pow 1 y = Ok 1%R.
Proof. rewrite py_pow_pos by lra. now rewrite Rpower_one_base. Qed.

Lemma py_pow_nonneg (x y : R) :
  (0 <= x)%R -> (0 <= y)%R -> exists a, py_pow x y = Ok a.
Proof.
  intros Hx Hy. unfold py_pow.
  destruct (Req_dec_T y 0); [eauto|].
  destruct (Rlt_dec 0 x); [eauto|].
  destruct (Req_dec_T x 0); [|lra].
  destruct (Rlt_dec 0 y); [eauto|lra].
Qed.

(** The exponent [float(M) / REF_LEN] is an integer exactly when 50
    divides [M]. *)
Lemma is_integer_ratio (M : Z) :
  is_integer (IZR M / IZR REF_LEN) = (M mod REF_LEN =? 0).
Proof.
  unfold is_integer, REF_LEN.
  destruct (Req_dec_T _ _) as [E|E]; destruct (Z.eqb_spec (M mod 50) 0) as [D|D];
    try reflexivity; exfalso.
  - apply D. set (j := Int_part (IZR M / 50)) in *.
    assert (H : IZR M = IZR (50 * j)) by (rewrite mult_IZR, <- E; field).
    apply eq_IZR in H. rewrite H, Z.mul_comm. apply Z_mod_mult.
  - apply E. apply Z.mod_divide in D; [|lia]. destruct D as [j ->].
    assert (Hq : (IZR (j * 50) / 50 = IZR j)%R) by (rewrite mult_IZR; field).
    rewrite Hq. f_equal. apply Int_part_spec. lra.
Qed.

(** When the power of [KS] raises, and what. *)
Lemma py_pow_ratio_raise (alpha : R) (M : Z) (e : exn) :
  0 <= M ->
  (py_pow alpha (IZR M / IZR REF_LEN) = Raise e <->
   (alpha < 0)%R /\ M mod REF_LEN <> 0 /\ e = ValueError).
Proof.
  intros HM.
  assert (Hq : (0 <= IZR M / IZR REF_LEN)%R).
  { unfold REF_LEN. apply IZR_le in HM. apply Rmult_le_pos; lra. }
  unfold py_pow. rewrite is_integer_ratio.
  destruct (Req_dec_T (IZR M / IZR REF_LEN) 0) as [E0|E0].
  { split; [discriminate|]. intros (_ & Hm & _). exfalso. apply Hm.
    unfold REF_LEN in *.
    assert (H : IZR M = 0%R) by (apply (Rmult_eq_reg_r (/ 50)); lra).
    apply eq_IZR in H. now subst. }
  destruct (Rlt_dec 0 alpha) as [Hp|Hp].
  { split; [discriminate|]. intros (? & _); lra. }
  destruct (Req_dec_T alpha 0) as [Hz|Hz].
  { destruct (Rlt_dec 0 _); [|lra]. split; [discriminate|]. intros (? & _); lra. }
  destruct (Z.eqb_spec (M mod REF_LEN) 0) as [D|D].
  { split; [discriminate|]. intros (_ & ? & _); contradiction. }
  split.
  - intros [= <-]. repeat split; [lra|assumption].
  - intros (_ & _ & ->). reflexivity.
Qed.

(** ** The loop of [KS] *)

Section KS_loop.

Variables (x : list R) (a : R) (N : Z).

Lemma KS_body_ok (n : Z) (y : list R) :
  0 <= n < N -> len y = N ->
  KS_body x (len x) a n y =
    Ok (<[Z.to_nat n :=
           (excitation_term x n
            + a * (if 0 <=? n - len x then sample y (n - len x) else 0))%R]> y).
Proof.
  intros Hn Hy. unfold KS_body, excitation_term.
  assert (Hx : 0 <= len x) by (unfold len; lia).
  rewrite Z.geb_leb.
  destruct (Z.ltb_spec n (len x)) as [Hlt|Hge].
  - rewrite (getitem_in_range x n) by lia. cbn.
    destruct (Z.leb_spec 0 (n - len x)) as [?|_]; [lia|]. cbn.
    apply setitem_in_range. lia.
  - cbn. destruct (Z.leb_spec 0 (n - len x)) as [_|?]; [|lia].
    rewrite (getitem_in_range y (n - len x)) by lia. cbn.
    apply setitem_in_range. lia.
Qed.

(** Running [k] iterations from index [n0]: the loop does not raise,
    keeps the length, leaves every other index alone, and each index it
    visits holds the excitation term plus [a] times the sample it read:
    the delayed sample [y[n-M]], already final when [M >= 1]. *)
Lemma KS_loop_inv (k : nat) :
  forall (n0 : Z) (y : list R),
    0 <= n0 -> n0 + Z.of_nat k <= N -> len y = N ->
    exists y',
      for_loop k n0 (KS_body x (len x) a) y = Ok y' /\
      len y' = N /\
      (forall n, 0 <= n -> ~ (n0 <= n < n0 + Z.of_nat k) ->
                 sample y' n = sample y n) /\
      (forall n, n0 <= n < n0 + Z.of_nat k ->
                 sample y' n =
                   (excitation_term x n
                    + a * (if 0 <=? n - len x
                           then (if len x =? 0 then sample y n
                                 else sample y' (n - len x))
                           else 0))%R).
Proof.
  assert (Hx : 0 <= len x) by (unfold len; lia).
  induction k as [|k IH]; intros n0 y Hn0 Hk Hy.
  - exists y. cbn. repeat split; trivial. intros; lia.
  - cbn [for_loop]. rewrite KS_body_ok by lia. cbn.
    set (v := (excitation_term x n0 + _)%R).
    destruct (IH (n0 + 1) (<[Z.to_nat n0 := v]> y)) as (y' & Hrun & Hlen & Hout & Hin);
      [lia | lia | now rewrite len_insert |].
    exists y'. split; [exact Hrun|]. split; [exact Hlen|]. split.
    + intros n Hn Hnot. rewrite Hout by lia.
      rewrite sample_insert by lia.
      destruct (Z.eqb_spec n n0); [lia | reflexivity].
    + intros n Hn. destruct (Z.eq_dec n n0) as [->|Hne].
      * rewrite Hout by lia. rewrite sample_insert, Z.eqb_refl by lia.
        subst v. do 2 f_equal.
        destruct (Z.leb_spec 0 (n0 - len x)); [|reflexivity].
        destruct (Z.eqb_spec (len x) 0) as [E|E].
        -- now rewrite E, Z.sub_0_r.
        -- rewrite Hout by lia. rewrite sample_insert by lia.
           destruct (Z.eqb_spec (n0 - len x) n0); [lia | reflexivity].
      * rewrite Hin by lia. do 2 f_equal.
        destruct (Z.leb_spec 0 (n - len x)); [|reflexivity].
        destruct (Z.eqb_spec (len x) 0) as [E|E]; [|reflexivity].
        rewrite sample_insert by lia.
        destruct (Z.eqb_spec n n0); [lia | reflexivity].
Qed.

(** The whole loop on the zero buffer satisfies the recurrence. *)
Lemma KS_loop_recurrence :
  0 <= N ->
  exists y,
    for_range 0 N (KS_body x (len x) a) (replicate (Z.to_nat N) 0%R) = Ok y /\
    recurrence_holds x N a y.
Proof.
  intros HN. unfold for_range.
  destruct (KS_loop_inv (Z.to_nat (N - 0)) 0 (replicate (Z.to_nat N) 0%R))
    as (y & Hrun & Hlen & _ & Hin).
  - lia.
  - lia.
  - unfold len. rewrite length_replicate. lia.
  - exists y. split; [exact Hrun|]. split; [exact Hlen|].
    intros n Hn. rewrite Hin by lia. fold (excitation_term x n).
    do 2 f_equal.
    destruct (Z.leb_spec 0 (n - len x)); [|reflexivity].
    destruct (Z.eqb_spec (len x) 0) as [E|E]; [|reflexivity].
    rewrite E, Z.sub_0_r, Hin, E, Z.sub_0_r by lia.
    unfold excitation_term. rewrite E.
    destruct (Z.ltb_spec n 0); [lia|].
    destruct (Z.leb_spec 0 n); [|lia].
    cbn. rewrite sample_zeros. ring.
Qed.

End KS_loop.

(** [KS] unfolded once its coefficient is known. *)
Lemma KS_run (x : list R) (N : Z) (alpha a : R) :
  0 <= N ->
  py_pow alpha (IZR (len x) / IZR REF_LEN) = Ok a ->
  exists y, KS x N alpha = Ok y /\ recurrence_holds x N a y.
Proof.
  intros HN Ha. unfold KS. rewrite Ha. cbn. unfold np_zeros.
  destruct (Z.ltb_spec N 0); [lia|]. cbn.
  now apply KS_loop_recurrence.
Qed.

Lemma py_pow_ratio_ok (alpha : R) (M : Z) :
  0 <= M ->
  (0 <= alpha)%R \/ M mod REF_LEN = 0 ->
  exists a, py_pow alpha (IZR M / IZR REF_LEN) = Ok a.
Proof.
  intros HM Hd.
  destruct (py_pow alpha (IZR M / IZR REF_LEN)) as [a|e] eqn:E; [eauto|].
  apply py_pow_ratio_raise in E; [|assumption].
  destruct E as (Hneg & Hmod & _). destruct Hd; [lra | contradiction].
Qed.

Lemma len_nonneg {A} (l : list A) : 0 <= len l.
Proof. unfold len. lia. Qed.

(** A power with base in (0,1) or above 1 determines its exponent. *)
Lemma Rpower_exponent_inj (b y z : R) :
  (0 < b)%R -> b <> 1%R -> Rpower b y = Rpower b z -> y = z.
Proof.
  intros Hb Hb1 E. apply (f_equal ln) in E. rewrite !ln_Rpower in E.
  pose proof (ln_neq_0 b Hb1 Hb) as Hln.
  apply (Rmult_eq_reg_r (ln b)); assumption.
Qed.

Lemma Rpower_half_not_half (e : R) : e <> 1%R -> Rpower (1 / 2) e <> (1 / 2)%R.
Proof.
  intros He E. apply He.
  apply (Rpower_exponent_inj (1 / 2)); [lra | lra |].
  rewrite E, Rpower_1; lra.
Qed.

(** The run of the second scenario of the specification:
    [KS([1,0,0,0,0], 10, 0.5)]. *)
Lemma KS_impulse5 :
  KS [1; 0; 0; 0; 0]%R 10 (1 / 2) =
    Ok [1; 0; 0; 0; 0; Rpower (1 / 2) (5 / 50); 0; 0; 0; 0]%R.
Proof.
  unfold KS. rewrite py_pow_pos by lra.
  replace (IZR (len [1; 0; 0; 0; 0]%R) / IZR REF_LEN)%R with (5 / 50)%R
    by reflexivity.
  generalize (Rpower (1 / 2) (5 / 50)). intros a.
  cbv -[Rplus Rmult IZR].
  repeat (f_equal; try lra).
Qed.

(** ** Runs on small inputs *)

Example KS_1_overshoot : KS_1 2 [1; 2; 3] 5 = Some [1; 2; 3; 1; 2; 3].
Proof. reflexivity. Qed.

Example KS_1_exact : KS_1 2 [1; 2; 3] 6 = Some [1; 2; 3; 1; 2; 3].
Proof. reflexivity. Qed.

Example KS_1_zero : KS_1 0 [1; 2; 3] 0 = Some [1].
Proof. reflexivity. Qed.

(** On an empty buffer the loop of [KS_1] never ends. *)
Example KS_1_empty_diverges (fuel : nat) : KS_1 fuel (@nil Z) 1 = None.
Proof.
  unfold KS_1. assert (H : KS_1_loop fuel (@nil Z) [] 1 = None).
  { induction fuel as [|fuel IH]; [reflexivity|]. exact IH. }
  now rewrite H.
Qed.

Example freq_short_note : freq "A" = Ok 0%R.
Proof. reflexivity. Qed.

Example freq_long_note : freq "A#10" = Ok 0%R.
Proof. reflexivity. Qed.

Example KS_negative_length : KS [1%R] (-1) 1 = Raise ValueError.
Proof. unfold KS. now rewrite py_pow_one. Qed.

(** ** Coefficients within the range of a double *)

Lemma one_le_DBL_SAFE : (1 <= DBL_SAFE)%R.
Proof. unfold DBL_SAFE. apply pow_R1_Rle. lra. Qed.

(** Every [alpha] in [-1, 1] gives a coefficient in [-1, 1]. *)
Lemma power_in_range_unit (alpha : R) (M : Z) :
  (-1 <= alpha <= 1)%R -> 0 <= M -> power_in_double_range alpha M.
Proof.
  intros Halpha HM a Ha.
  apply Rle_trans with 1%R; [|apply one_le_DBL_SAFE].
  assert (He : (0 <= IZR M / IZR REF_LEN)%R).
  { unfold REF_LEN. apply IZR_le in HM. apply Rmult_le_pos; lra. }
  unfold py_pow in Ha.
  destruct (Req_dec_T _ 0) as [_|Hne].
  { injection Ha as <-. rewrite Rabs_pos_eq; lra. }
  destruct (Rlt_dec 0 alpha) as [Hp|Hp].
  { injection Ha as <-.
    assert (0 < Rpower alpha (IZR M / IZR REF_LEN))%R
      by (unfold Rpower; apply exp_pos).
    rewrite Rabs_pos_eq by lra.
    rewrite <- (Rpower_one_base (IZR M / IZR REF_LEN)).
    apply Rle_Rpower_l; lra. }
  destruct (Req_dec_T alpha 0) as [_|Hz].
  { destruct (Rlt_dec 0 _); [|discriminate].
    injection Ha as <-. rewrite Rabs_R0. lra. }
  destruct (is_integer _); [|discriminate]. injection Ha as <-.
  destruct (base_Int_part (IZR M / IZR REF_LEN)) as [_ Hk].
  assert (Hk0 : (-1 < IZR (Int_part (IZR M / IZR REF_LEN)))%R) by lra.
  apply lt_IZR in Hk0.
  destruct (Int_part (IZR M / IZR REF_LEN)) as [|k|k]; [| |lia].
  - cbn. rewrite Rabs_pos_eq; lra.
  - cbn [powerRZ]. rewrite <- RPow_abs.
    rewrite <- (pow1 (Pos.to_nat k)). apply pow_incr.
    split; [apply Rabs_pos|]. unfold Rabs. destruct (Rcase_abs alpha); lra.
Qed.

(** So does every [alpha] in (1, 2] on a buffer of at most 50000
    samples: the coefficient is at most [2 ^ 1000]. *)
Lemma power_in_range_above_one (alpha : R) (M : Z) :
  (1 < alpha <= 2)%R -> 0 <= M <= 50000 -> power_in_double_range alpha M.
Proof.
  intros Halpha HM a Ha.
  assert (He : (0 <= IZR M / IZR REF_LEN <= 1000)%R).
  { unfold REF_LEN. destruct HM as [H0 H1].
    apply IZR_le in H0. apply IZR_le in H1. lra. }
  unfold py_pow in Ha.
  destruct (Req_dec_T _ 0) as [_|Hne].
  { injection Ha as <-. rewrite Rabs_pos_eq by lra. apply one_le_DBL_SAFE. }
  destruct (Rlt_dec 0 alpha) as [_|?]; [|lra]. injection Ha as <-.
  assert (0 < Rpower alpha (IZR M / IZR REF_LEN))%R
    by (unfold Rpower; apply exp_pos).
  rewrite Rabs_pos_eq by lra.
  apply Rle_trans with (Rpower 2 (IZR M / IZR REF_LEN));
    [apply Rle_Rpower_l; lra|].
  apply Rle_trans with (Rpower 2 1000); [apply Rle_Rpower; lra|].
  replace 1000%R with (INR 1000) by (rewrite INR_IZR_INZ; reflexivity).
  rewrite Rpower_pow by lra. unfold DBL_SAFE. apply Rle_pow; [lra | lia].
Qed.

(** ** Claims about [KS] *)

(** C1 (amended).  [KS] has no reference-length argument: the constant
    [REF_LEN = 50] is used.  For every excitation [x] of length [M >= 1],
    every [N >= 0] and every [alpha] that is non-negative (or any [alpha]
    when 50 divides [M]) and whose coefficient [alpha ** (M / 50)] stays
    within the range of a double, [KS x N alpha] returns a buffer [y] of
    length [N] with coefficient [a = alpha ** (M / 50)] and
    [y[n] = (x[n] if n < M else 0) + a * (y[n-M] if n-M >= 0 else 0)] for
    [n = 0 .. N-1]; with [M = 25] and [alpha = 0.99] the coefficient is
    [0.99 ** (25/50)]. *)
Theorem KS_recurrence (x : list R) (N : Z) (alpha : R) :
  1 <= len x -> 0 <= N ->
  (0 <= alpha)%R \/ len x mod REF_LEN = 0 ->
  power_in_double_range alpha (len x) ->
  synthesize_contract x N alpha REF_LEN /\
  (len x = 25 -> alpha = (99 / 100)%R ->
   exists y, KS x N alpha = Ok y /\
             recurrence_holds x N (Rpower (99 / 100) (25 / 50)) y).
Proof.
  intros HM HN Halpha _.
  destruct (py_pow_ratio_ok alpha (len x)) as [a Ha]; [lia | assumption |].
  destruct (KS_run x N alpha a HN Ha) as (y & Hy & Hrec).
  split.
  - exists a, y. auto.
  - intros H25 H99. exists y. split; [assumption|].
    rewrite py_pow_pos in Ha by lra. injection Ha as <-.
    rewrite H25, H99 in Hrec. exact Hrec.
Qed.

Lemma KS_recurrence_witness :
  synthesize_contract (replicate 25 1%R) 60 (99 / 100) REF_LEN /\
  (len (replicate 25 1%R) = 25 -> (99 / 100)%R = (99 / 100)%R ->
   exists y, KS (replicate 25 1%R) 60 (99 / 100) = Ok y /\
             recurrence_holds (replicate 25 1%R) 60 (Rpower (99 / 100) (25 / 50)) y).
Proof.
  apply (KS_recurrence (replicate 25 1%R) 60 (99 / 100)).
  - vm_compute. discriminate.
  - lia.
  - left. lra.
  - apply power_in_range_unit; [lra | apply len_nonneg].
Defined.

(** C1 as stated fails: with reference length 1 the specification's
    coefficient for [x = [1]], [alpha = 1/2] is [1/2], not the
    [(1/2) ** (1/50)] that [KS] uses; and for a negative [alpha] with a
    fractional exponent [KS] raises instead of returning a buffer.  (A
    coefficient beyond the range of a double makes the float power raise
    as well; the amended statement keeps clear of it.) *)
Lemma KS_recurrence_counterexample :
  (1 <= len [1%R] /\ 0 <= 2 /\ ~ synthesize_contract [1%R] 2 (1 / 2) 1) /\
  (1 <= len [1; 2]%R /\ 0 <= 1 /\ ~ synthesize_contract [1; 2]%R 1 (- (1 / 2)) 50).
Proof.
  split; (split; [unfold len; simpl; lia | split; [lia|]]).
  - intros (a & y & Ha & Hy & _ & Hrec).
    rewrite py_pow_pos in Ha by lra. injection Ha as <-.
    destruct (KS_run [1%R] 2 (1 / 2) (Rpower (1 / 2) (1 / 50))) as (y' & Hy' & _ & Hrec');
      [lia | now apply py_pow_pos; lra |].
    rewrite Hy in Hy'. injection Hy' as <-.
    pose proof (Hrec 0 ltac:(lia)) as H0. pose proof (Hrec 1 ltac:(lia)) as H1.
    pose proof (Hrec' 1 ltac:(lia)) as H1'.
    change (len [1%R]) with 1 in H0, H1, H1'.
    change (1 - 1) with 0 in H1, H1'. change (0 - 1) with (-1) in H0.
    cbn in H0, H1, H1'.
    apply (Rpower_half_not_half (1 / 50)); [lra|].
    replace (1 / 1)%R with 1%R in H0, H1 by lra.
    rewrite Rpower_1 in H0, H1 by lra.
    change (sample [1%R] 0) with 1%R in H0. rewrite H0 in H1, H1'. lra.
  - intros (a & _ & Ha & _).
    assert (E : py_pow (- (1 / 2)) (IZR (len [1; 2]%R) / IZR REF_LEN) = Raise ValueError).
    { apply py_pow_ratio_raise; [apply len_nonneg|].
      repeat split; [lra | discriminate]. }
    unfold REF_LEN in E. rewrite Ha in E. discriminate.
Qed.

(** C2 (amended).  [KS([1,0,0,0,0], 10, 0.5)] has [M = 5] and, the
    reference length being 50, coefficient [0.5 ** (5/50)]; it returns
    [[1,0,0,0,0, 0.5 ** (5/50), 0,0,0,0]]. *)
Theorem KS_impulse_scenario :
  len [1; 0; 0; 0; 0]%R = 5 /\
  py_pow (1 / 2) (IZR (len [1; 0; 0; 0; 0]%R) / IZR REF_LEN)
    = Ok (Rpower (1 / 2) (5 / 50)) /\
  KS [1; 0; 0; 0; 0]%R 10 (1 / 2) =
    Ok [1; 0; 0; 0; 0; Rpower (1 / 2) (5 / 50); 0; 0; 0; 0]%R.
Proof.
  split; [reflexivity|]. split; [|exact KS_impulse5].
  rewrite py_pow_pos by lra. reflexivity.
Qed.

(** C2 as stated fails: the sixth sample is [0.5 ** (1/10)], not [0.5]. *)
Lemma KS_impulse_scenario_counterexample :
  KS [1; 0; 0; 0; 0]%R 10 (1 / 2) <> Ok [1; 0; 0; 0; 0; 1 / 2; 0; 0; 0; 0]%R.
Proof.
  rewrite KS_impulse5. intros [= E].
  apply (Rpower_half_not_half (5 / 50)); [lra | exact E].
Qed.

(** C4 (amended).  [KS] validates nothing.  On every input whose
    coefficient [alpha ** (M / 50)], when it is defined, stays within the
    range of a double (every [alpha] in [-1, 1]; [alpha = 1.5] on any
    buffer of at most 50000 samples), it raises exactly when [N < 0]
    ([np.zeros] refuses a negative length) or when [alpha < 0] and 50
    does not divide [M] (a negative number cannot be raised to a
    fractional power); the exception is [ValueError] in both cases.  In
    every other case, also for an empty excitation, for [alpha = 0] and for
    [alpha > 1], it returns a buffer of length [N].  A raised exception
    carries no buffer. *)
Theorem KS_raises_iff (x : list R) (N : Z) (alpha : R) :
  power_in_double_range alpha (len x) ->
  (((alpha < 0)%R /\ len x mod REF_LEN <> 0) \/ N < 0 ->
   KS x N alpha = Raise ValueError) /\
  (~ (((alpha < 0)%R /\ len x mod REF_LEN <> 0) \/ N < 0) ->
   exists y, KS x N alpha = Ok y /\ len y = N).
Proof.
  intros _. split.
  - intros Hbad. unfold KS.
    destruct (py_pow alpha (IZR (len x) / IZR REF_LEN)) as [a|e] eqn:E.
    + cbn. unfold np_zeros. destruct Hbad as [(Hneg & Hmod)|HN].
      * assert (E' : py_pow alpha (IZR (len x) / IZR REF_LEN) = Raise ValueError)
          by (apply py_pow_ratio_raise; [apply len_nonneg | auto]).
        rewrite E in E'. discriminate.
      * destruct (Z.ltb_spec N 0); [reflexivity | lia].
    + apply py_pow_ratio_raise in E; [|apply len_nonneg].
      destruct E as (_ & _ & ->). reflexivity.
  - intros Hok.
    assert (HN : 0 <= N) by lia.
    destruct (py_pow_ratio_ok alpha (len x)) as [a Ha]; [apply len_nonneg | |].
    { destruct (Rlt_dec alpha 0) as [Hneg|Hpos]; [|left; lra].
      right. destruct (Z.eq_dec (len x mod REF_LEN) 0); [assumption|].
      exfalso. apply Hok. left. auto. }
    destruct (KS_run x N alpha a HN Ha) as (y & Hy & Hlen & _). eauto.
Qed.

Lemma KS_raises_iff_witness :
  KS [1; 2]%R 4 (- (1 / 2)) = Raise ValueError /\
  exists y, KS [1; 2]%R 4 (3 / 2) = Ok y /\ len y = 4.
Proof.
  split.
  - apply (proj1 (KS_raises_iff [1; 2]%R 4 (- (1 / 2))
                    ltac:(apply power_in_range_unit; [lra | apply len_nonneg]))).
    left. split; [lra | discriminate].
  - apply (proj2 (KS_raises_iff [1; 2]%R 4 (3 / 2)
                    ltac:(apply power_in_range_above_one;
                          [lra | unfold len; simpl; lia]))).
    intros [[Hneg _]|HN]; [lra | lia].
Defined.

(** C4 as stated fails: with [alpha = 1.5] and [N = 10], and with an
    empty excitation, [KS] returns a buffer. *)
Lemma KS_raises_counterexample :
  (exists y, KS [1%R] 10 (3 / 2) = Ok y /\ len y = 10) /\
  (exists y, KS [] 10 (1 / 2) = Ok y /\ len y = 10).
Proof.
  split.
  - destruct (KS_run [1%R] 10 (3 / 2) (Rpower (3 / 2) (IZR (len [1%R]) / IZR REF_LEN)))
      as (y & Hy & Hlen & _); [lia | apply py_pow_pos; lra | eauto].
  - destruct (KS_run [] 10 (1 / 2) (Rpower (1 / 2) (IZR (len (@nil R)) / IZR REF_LEN)))
      as (y & Hy & Hlen & _); [lia | apply py_pow_pos; lra | eauto].
Qed.

(** C6.  With [alpha = 1] the output of [KS] is periodic with period [M]
    from index [M] on: for every excitation of length [M >= 1] the call
    returns a buffer [y] with [y[n] = y[n+M]] whenever [n >= M] and
    [n + M < N]. *)
Theorem KS_undamped_periodic (x : list R) (N : Z) :
  1 <= len x -> 0 <= N ->
  exists y, KS x N 1 = Ok y /\ len y = N /\
    forall n, len x <= n -> n + len x < N -> sample y n = sample y (n + len x).
Proof.
  intros HM HN.
  destruct (KS_run x N 1 1%R HN (py_pow_one _)) as (y & Hy & Hlen & Hrec).
  exists y. split; [assumption|]. split; [assumption|]. intros n Hn HnM.
  rewrite (Hrec (n + len x)) by lia.
  destruct (Z.ltb_spec (n + len x) (len x)); [lia|].
  destruct (Z.leb_spec 0 (n + len x - len x)); [|lia].
  replace (n + len x - len x) with n by lia. lra.
Qed.

Lemma KS_undamped_periodic_witness :
  exists y, KS [1; 2]%R 7 1 = Ok y /\ len y = 7 /\
    forall n, len [1; 2]%R <= n -> n + len [1; 2]%R < 7 ->
              sample y n = sample y (n + len [1; 2]%R).
Proof.
  apply (KS_undamped_periodic [1; 2]%R 7).
  - unfold len. simpl. lia.
  - lia.
Defined.

(** C7 (amended).  When [M > N] the output of [KS] is the first [N]
    samples of the excitation, for every [alpha >= 0] (and for every
    [alpha] when 50 divides [M]) whose coefficient [alpha ** (M / 50)]
    stays within the range of a double; the reference length plays no
    part. *)
Theorem KS_short_output (x : list R) (N : Z) (alpha : R) :
  0 <= N < len x ->
  (0 <= alpha)%R \/ len x mod REF_LEN = 0 ->
  power_in_double_range alpha (len x) ->
  KS x N alpha = Ok (slice_to x N).
Proof.
  intros HN Halpha _.
  destruct (py_pow_ratio_ok alpha (len x)) as [a Ha]; [lia | assumption |].
  destruct (KS_run x N alpha a (proj1 HN) Ha) as (y & Hy & Hlen & Hrec).
  rewrite Hy. f_equal. unfold slice_to.
  destruct (Z.ltb_spec N 0); [lia|].
  rewrite Z.min_l by lia.
  apply list_eq. intros i. rewrite lookup_take.
  unfold len in *.
  destruct (decide (i < Z.to_nat N)%nat) as [Hi|Hi].
  - specialize (Hrec (Z.of_nat i) ltac:(lia)).
    destruct (Z.ltb_spec (Z.of_nat i) (Z.of_nat (length x))); [|lia].
    destruct (Z.leb_spec 0 (Z.of_nat i - Z.of_nat (length x))); [lia|].
    unfold sample in Hrec. rewrite Nat2Z.id in Hrec.
    rewrite !list_lookup_lookup_total_lt by lia. f_equal. lra.
  - apply lookup_ge_None. lia.
Qed.

Lemma KS_short_output_witness :
  KS [1; 2; 3]%R 2 (1 / 2) = Ok (slice_to [1; 2; 3]%R 2).
Proof.
  apply KS_short_output.
  - unfold len. simpl. lia.
  - left. lra.
  - apply power_in_range_unit; [lra | apply len_nonneg].
Defined.

(** C7 as stated fails for a negative [alpha]: the power raises.  (So
    does the float power of a coefficient beyond the range of a double;
    the amended statement keeps clear of it.) *)
Lemma KS_short_output_counterexample :
  0 <= 1 < len [1; 2]%R /\
  KS [1; 2]%R 1 (- (1 / 2)) = Raise ValueError /\
  KS [1; 2]%R 1 (- (1 / 2)) <> Ok (slice_to [1; 2]%R 1).
Proof.
  assert (E : KS [1; 2]%R 1 (- (1 / 2)) = Raise ValueError).
  { unfold KS.
    assert (Hp : py_pow (- (1 / 2)) (IZR (len [1; 2]%R) / IZR REF_LEN) = Raise ValueError).
    { apply py_pow_ratio_raise; [apply len_nonneg|].
      repeat split; [lra | discriminate]. }
    now rewrite Hp. }
  split; [unfold len; simpl; lia|].
  split; [exact E|]. rewrite E. discriminate.
Qed.

(** ** The empty chord *)

(** C9.  For every [N >= 0], [ks_chord] on the empty chord returns [N]
    zeros and does not raise; the random source is not consulted. *)
Theorem ks_chord_empty {Rng : Type} (draw : Rng -> R * Rng)
    (N : Z) (alpha : R) (g : Rng) :
  0 <= N ->
  ks_chord draw [] N alpha g = Ok (replicate (Z.to_nat N) 0%R, g) /\
  len (replicate (Z.to_nat N) 0%R) = N.
Proof.
  intros HN. split.
  - unfold ks_chord, np_zeros. destruct (Z.ltb_spec N 0); [lia | reflexivity].
  - unfold len. rewrite length_replicate. lia.
Qed.

Lemma ks_chord_empty_witness :
  ks_chord (fun g : unit => (0%R, g)) [] 100 (995 / 1000) tt
    = Ok (replicate 100 0%R, tt) /\
  len (replicate (Z.to_nat 100) 0%R) = 100.
Proof.
  apply (ks_chord_empty (fun g : unit => (0%R, g)) 100 (995 / 1000) tt). lia.
Defined.

(** ** The naive variant *)

Section KS_1_facts.

Context {A : Type}.
Variables (x : list A) (N : Z).
Hypothesis x_nonempty : 1 <= len x.

(** With enough fuel the [while] loop ends, on a whole number of copies
    of [x] that overshoots [N] by less than one copy. *)
Lemma KS_1_loop_ends (fuel : nat) :
  forall y : list A,
    (Z.to_nat (N - len y) <= fuel)%nat ->
    exists y',
      KS_1_loop fuel x y N = Some y' /\
      N <= len y' /\
      (exists k, 0 <= k /\ len y' = len y + k * len x) /\
      (len y < N -> len y' < N + len x) /\
      (N <= len y -> y' = y).
Proof.
  induction fuel as [|fuel IH]; intros y Hfuel; cbn [KS_1_loop].
  - destruct (Z.ltb_spec (len y) N) as [Hlt|Hge]; [lia|].
    exists y. repeat split; try lia. exists 0. lia.
  - destruct (Z.ltb_spec (len y) N) as [Hlt|Hge].
    + assert (Happ : len (y ++ x) = len y + len x)
        by (unfold len; rewrite length_app; lia).
      destruct (IH (y ++ x)) as (y' & Hrun & HN & (k & Hk & Hlen) & Hover & Hsame);
        [lia|].
      exists y'. split; [exact Hrun|]. split; [exact HN|]. split.
      * exists (k + 1). lia.
      * split; [|lia]. intros _.
        destruct (Z.lt_ge_cases (len (y ++ x)) N) as [Hl|Hg]; [lia|].
        rewrite (Hsame Hg). lia.
    + exists y. repeat split; try lia. exists 0. lia.
Qed.

(** More fuel does not change a result. *)
Lemma KS_1_loop_fuel (fuel : nat) :
  forall (fuel' : nat) (y y' : list A),
    KS_1_loop fuel x y N = Some y' -> (fuel <= fuel')%nat ->
    KS_1_loop fuel' x y N = Some y'.
Proof.
  induction fuel as [|fuel IH]; intros fuel' y y' Hrun Hle;
    cbn [KS_1_loop] in Hrun.
  - destruct fuel'; cbn [KS_1_loop];
      destruct (len y <? N); try discriminate; assumption.
  - destruct fuel' as [|fuel']; [lia|]. cbn [KS_1_loop].
    destruct (len y <? N); [|assumption].
    apply IH; [assumption | lia].
Qed.

End KS_1_facts.

(** C10.  For a non-empty buffer [x] and [N >= 1], [KS_1(x, N)] returns
    [N] samples when [len(x)] divides [N] and [N + 1] samples otherwise
    (the trim is [y[0:N+1]]); for [N = 0] it returns one sample.  The
    loop ends: any fuel from [N] on gives the same buffer. *)
Theorem KS_1_length {A : Type} (x : list A) (N : Z) :
  1 <= len x -> 0 <= N ->
  exists y,
    (forall fuel, (Z.to_nat N <= fuel)%nat -> KS_1 fuel x N = Some y) /\
    len y = (if N =? 0 then 1
             else if N mod len x =? 0 then N else N + 1).
Proof.
  intros Hx HN.
  destruct (KS_1_loop_ends x N Hx (Z.to_nat N) x) as
    (y' & Hrun & HNy & (k & Hk & Hlen) & Hover & Hsame); [lia|].
  exists (slice_to y' (N + 1)). split.
  - intros fuel Hfuel. unfold KS_1.
    now rewrite (KS_1_loop_fuel x N (Z.to_nat N) fuel x y' Hrun Hfuel).
  - unfold slice_to. destruct (Z.ltb_spec (N + 1) 0); [lia|].
    unfold len at 1. rewrite length_take. fold (len y').
    assert (Hmin : Z.of_nat (Z.to_nat (Z.min (N + 1) (len y')) `min` length y')
                   = Z.min (N + 1) (len y')) by (unfold len in *; lia).
    rewrite Hmin.
    destruct (Z.eqb_spec N 0) as [->|HN0].
    + rewrite (Hsame ltac:(lia)). lia.
    + destruct (Z.eqb_spec (N mod len x) 0) as [Hdiv|Hndiv].
      * apply Z.mod_divide in Hdiv; [|lia]. destruct Hdiv as [q Hq].
        assert (len y' = N); [|lia].
        destruct (Z.lt_ge_cases (len x) N) as [Hl|Hg].
        -- specialize (Hover Hl).
           assert (Hlo : q <= 1 + k) by nia.
           assert (Hhi : 1 + k < q + 1) by nia.
           assert (1 + k = q) as <- by lia. lia.
        -- rewrite (Hsame Hg).
           assert (Hq1 : 1 <= q) by nia. nia.
      * assert (len y' <> N); [|lia].
        intros E. apply Hndiv. rewrite <- E, Hlen.
        replace (len x + k * len x) with ((1 + k) * len x) by ring.
        apply Z_mod_mult.
Qed.

Lemma KS_1_length_witness :
  exists y,
    (forall fuel, (Z.to_nat 5 <= fuel)%nat -> KS_1 fuel [1; 2; 3]%Z 5 = Some y) /\
    len y = (if 5 =? 0 then 1
             else if 5 mod len [1; 2; 3]%Z =? 0 then 5 else 5 + 1).
Proof.
  apply (KS_1_length [1; 2; 3]%Z 5).
  - unfold len. simpl. lia.
  - lia.
Defined.

(** ** Claims about [freq] *)

Lemma Rpower_pos (b e : R) : (0 < Rpower b e)%R.
Proof. unfold Rpower. apply exp_pos. Qed.

(** The code's table and the specification's agree. *)
Lemma SEMITONES_lookup (l : Letter) :
  dict_getitem SEMITONES (letter_char l) = Ok (semitoneOffset l).
Proof. destruct l; reflexivity. Qed.

Lemma freq_tail_ok (l : Letter) (acc octave : Z) :
  freq_tail (letter_char l) acc octave =
    Ok (440 * Rpower 2 (IZR (12 * (octave - 4) + semitoneOffset l + acc) / 12))%R.
Proof.
  unfold freq_tail. rewrite SEMITONES_lookup. cbn.
  rewrite py_pow_pos by lra. reflexivity.
Qed.

(** A note name with a one-digit octave reaches the end of [freq]. *)
Lemma freq_note_name (p : Pitch) :
  0 <= octave p <= 9 ->
  freq (note_name p) =
    freq_tail (letter_char (letter p)) (accidental_value (accidental p)) (octave p).
Proof.
  destruct p as [l a o]. cbn [letter accidental octave]. intros Ho.
  assert (Hcases : o = 0 \/ o = 1 \/ o = 2 \/ o = 3 \/ o = 4 \/
                   o = 5 \/ o = 6 \/ o = 7 \/ o = 8 \/ o = 9) by lia.
  repeat (destruct Hcases as [->|Hcases]); try subst o;
    destruct l, a; reflexivity.
Qed.

Lemma freq_pitch (p : Pitch) :
  0 <= octave p <= 9 -> freq (note_name p) = Ok (equal_tempered p).
Proof.
  intros Ho. rewrite freq_note_name by assumption. apply freq_tail_ok.
Qed.

Lemma equal_tempered_octave_up (p : Pitch) :
  equal_tempered (octave_up p) = (2 * equal_tempered p)%R.
Proof.
  unfold equal_tempered, semitones_from_A4, octave_up. cbn [letter accidental octave].
  set (n := 12 * (octave p - 4) + semitoneOffset (letter p)
            + accidental_value (accidental p)).
  replace (12 * (octave p + 1 - 4) + semitoneOffset (letter p)
           + accidental_value (accidental p)) with (n + 12) by (subst n; ring).
  rewrite plus_IZR.
  replace ((IZR n + 12) / 12)%R with (IZR n / 12 + 1)%R by field.
  rewrite Rpower_plus, Rpower_1 by lra. ring.
Qed.

(** The fourth root of two, between 523.25/440 and 523.26/440. *)
Lemma C5_bounds :
  (523.25 < 440 * Rpower 2 (3 / 12) < 523.26)%R.
Proof.
  set (r := Rpower 2 (3 / 12)).
  assert (Hr : (0 < r)%R) by apply Rpower_pos.
  assert (H4 : (r * r * (r * r) = 2)%R).
  { assert (E : Rpower r (INR 4) = 2%R).
    { unfold r. rewrite Rpower_mult.
      replace (3 / 12 * INR 4)%R with 1%R by (simpl; field).
      apply Rpower_1. lra. }
    rewrite Rpower_pow in E by assumption. rewrite <- E. ring. }
  set (s := (r * r)%R) in *.
  assert (Hs : (0 < s)%R) by (unfold s; nra).
  split.
  - destruct (Rlt_dec (523.25 / 440) r) as [?|Hn]; [lra|]. exfalso.
    assert (Hs1 : (s <= 523.25 / 440 * (523.25 / 440))%R) by (unfold s; nra).
    assert (Hs2 : (s * s <= 523.25 / 440 * (523.25 / 440)
                            * (523.25 / 440 * (523.25 / 440)))%R) by nra.
    lra.
  - destruct (Rlt_dec r (523.26 / 440)) as [?|Hn]; [lra|]. exfalso.
    assert (Hs1 : (523.26 / 440 * (523.26 / 440) <= s)%R) by (unfold s; nra).
    assert (Hs2 : (523.26 / 440 * (523.26 / 440)
                   * (523.26 / 440 * (523.26 / 440)) <= s * s)%R) by nra.
    lra.
Qed.

(** C3 (amended).  A note name holds one octave digit.  For every pitch
    with letter A-G, optional accidental and octave from 0 to 9, [freq]
    returns [440 * 2 ** (n / 12)] with
    [n = 12 * (octave - 4) + semitoneOffset(letter) + accidental] and the
    table A=0, B=2, C=-9, D=-7, E=-5, F=-4, G=-2; the note C5 resolves to
    [440 * 2 ** (3/12)], between 523.25 and 523.26. *)
Theorem freq_equal_tempered (p : Pitch) :
  0 <= octave p <= 9 ->
  freq (note_name p) = Ok (equal_tempered p) /\
  freq "C5" = Ok (440 * Rpower 2 (3 / 12))%R /\
  (523.25 < 440 * Rpower 2 (3 / 12) < 523.26)%R.
Proof.
  intros Ho. split; [now apply freq_pitch|]. split; [|exact C5_bounds].
  change (freq "C5") with (freq (note_name (mkPitch LC Natural 5))).
  rewrite freq_pitch by (simpl; lia).
  unfold equal_tempered, semitones_from_A4. reflexivity.
Qed.

Lemma freq_equal_tempered_witness :
  freq (note_name (mkPitch LF Sharp 3)) = Ok (equal_tempered (mkPitch LF Sharp 3)) /\
  freq "C5" = Ok (440 * Rpower 2 (3 / 12))%R /\
  (523.25 < 440 * Rpower 2 (3 / 12) < 523.26)%R.
Proof.
  apply (freq_equal_tempered (mkPitch LF Sharp 3)). simpl. lia.
Defined.

(** C3 as stated fails for an octave of two characters: A10 and A-1 are
    three characters long, the second is taken for an accidental, and
    [freq] returns 0. *)
Lemma freq_equal_tempered_counterexample :
  freq (note_name (mkPitch LA Natural 10)) = Ok 0%R /\
  freq (note_name (mkPitch LA Natural 10))
    <> Ok (equal_tempered (mkPitch LA Natural 10)) /\
  freq (note_name (mkPitch LA Natural (-1)))
    <> Ok (equal_tempered (mkPitch LA Natural (-1))).
Proof.
  assert (Hne : forall p, Ok 0%R <> Ok (equal_tempered p)).
  { intros p [= E]. unfold equal_tempered in E.
    pose proof (Rpower_pos 2 (IZR (semitones_from_A4 p) / 12)). lra. }
  split; [reflexivity|]. split.
  - change (freq (note_name (mkPitch LA Natural 10))) with (@Ok R 0%R). apply Hne.
  - change (freq (note_name (mkPitch LA Natural (-1)))) with (@Ok R 0%R). apply Hne.
Qed.

(** C8 (amended).  [freq] of A4 is 440 and of A5 is twice that; for
    every octave from 0 to 8, raising the note A by one octave doubles
    the frequency, which is [440 * 2 ** (octave - 4)]: the exponent
    [n / 12] is then a whole number and the power of two is exact.  (For
    the other letters the two float results agree up to rounding only,
    and nothing is stated about them.) *)
Theorem freq_octave_doubling (o : Z) :
  0 <= o <= 8 ->
  freq "A4" = Ok 440%R /\
  freq "A5" = Ok (2 * 440)%R /\
  exists f, f = (440 * powerRZ 2 (o - 4))%R /\
            freq (note_name (mkPitch LA Natural o)) = Ok f /\
            freq (note_name (octave_up (mkPitch LA Natural o))) = Ok (2 * f)%R.
Proof.
  intros Ho.
  assert (HA : forall k, equal_tempered (mkPitch LA Natural k)
                         = (440 * powerRZ 2 (k - 4))%R).
  { intros k. unfold equal_tempered, semitones_from_A4.
    cbn [letter accidental octave semitoneOffset accidental_value].
    rewrite powerRZ_Rpower by lra. do 2 f_equal.
    replace (12 * (k - 4) + 0 + 0) with (12 * (k - 4)) by ring.
    rewrite mult_IZR. field. }
  split; [|split].
  - change (freq "A4") with (freq (note_name (mkPitch LA Natural 4))).
    rewrite freq_pitch by (simpl; lia). rewrite HA. f_equal.
    change (4 - 4) with 0. cbn [powerRZ]. ring.
  - change (freq "A5") with (freq (note_name (mkPitch LA Natural 5))).
    rewrite freq_pitch by (simpl; lia). rewrite HA. f_equal.
    change (5 - 4) with 1. rewrite powerRZ_1. ring.
  - exists (equal_tempered (mkPitch LA Natural o)). split; [apply HA|].
    split; [apply freq_pitch; simpl; lia|].
    rewrite freq_pitch by (simpl; lia). now rewrite equal_tempered_octave_up.
Qed.

Lemma freq_octave_doubling_witness :
  freq "A4" = Ok 440%R /\
  freq "A5" = Ok (2 * 440)%R /\
  exists f, f = (440 * powerRZ 2 (2 - 4))%R /\
            freq (note_name (mkPitch LA Natural 2)) = Ok f /\
            freq (note_name (octave_up (mkPitch LA Natural 2))) = Ok (2 * f)%R.
Proof.
  apply (freq_octave_doubling 2). lia.
Defined.

(** C8 as stated fails at octave 9: the name of the raised pitch, A10,
    has two octave digits and [freq] returns 0 for it. *)
Lemma freq_octave_doubling_counterexample :
  exists f, freq (note_name (mkPitch LA Natural 9)) = Ok f /\
            freq (note_name (octave_up (mkPitch LA Natural 9))) <> Ok (2 * f)%R.
Proof.
  exists (equal_tempered (mkPitch LA Natural 9)). split.
  - apply freq_pitch. simpl. lia.
  - change (freq (note_name (octave_up (mkPitch LA Natural 9)))) with (@Ok R 0%R).
    intros [= E]. unfold equal_tempered in E.
    pose proof (Rpower_pos 2 (IZR (semitones_from_A4 (mkPitch LA Natural 9)) / 12)).
    lra.
Qed.

(** C5 (amended).  [freq] has no exception of its own.  It returns 0,
    and raises nothing, for every note of fewer than 2 or more than 3
    characters, for every note whose first character is outside A-G, and
    for every three-character note whose second character is neither
    ['b'] nor ['#'].  An octave character that is not a digit, after a
    letter from A to G (and a proper accidental), makes [int] raise
    [ValueError]. *)
Theorem freq_malformed (note : string) (c0 c1 c2 : ascii) (rest : string) :
  ((String.length note < 2)%nat \/ (3 < String.length note)%nat ->
   freq note = Ok 0%R) /\
  (outside_A_G c0 = true -> freq (String c0 rest) = Ok 0%R) /\
  (c1 <> "b"%char -> c1 <> "#"%char ->
   freq (String c0 (String c1 (String c2 ""))) = Ok 0%R) /\
  (outside_A_G c0 = false -> is_digit c1 = false ->
   freq (String c0 (String c1 "")) = Raise ValueError) /\
  (outside_A_G c0 = false -> c1 = "b"%char \/ c1 = "#"%char -> is_digit c2 = false ->
   freq (String c0 (String c1 (String c2 ""))) = Raise ValueError).
Proof.
  unfold outside_A_G.
  split; [|split; [|split; [|split]]].
  - intros Hlen. unfold freq.
    assert (Hl : len (list_ascii_of_string note) = Z.of_nat (String.length note)).
    { unfold len. f_equal. clear Hlen.
      induction note as [|c t IH]; cbn; [reflexivity | now rewrite IH]. }
    rewrite Hl.
    destruct (Z.ltb_spec (Z.of_nat (String.length note)) 2); [reflexivity|].
    destruct (Z.gtb_spec (Z.of_nat (String.length note)) 3); [reflexivity | lia].
  - intros Hout. unfold freq. cbn [list_ascii_of_string].
    set (s := c0 :: list_ascii_of_string rest).
    destruct (len s <? 2); [reflexivity|].
    destruct (len s >? 3); [reflexivity|].
    change (getitem s 0) with (Ok c0). cbn [mbind result_bind].
    apply orb_true_iff in Hout. destruct Hout as [-> | H]; [reflexivity|].
    rewrite H. now destruct (Ascii.ltb c0 "A").
  - intros Hb Hs. apply Ascii.eqb_neq in Hb, Hs.
    unfold freq. cbn [list_ascii_of_string].
    change (len [c0; c1; c2]) with 3. cbn [Z.ltb Z.gtb Z.eqb Z.compare Pos.compare Pos.compare_cont Pos.eqb].
    change (getitem [c0; c1; c2] 0) with (Ok c0).
    change (getitem [c0; c1; c2] 1) with (Ok c1). cbn [mbind result_bind].
    rewrite Hb, Hs.
    destruct (Ascii.ltb c0 "A"); [reflexivity|].
    now destruct (Ascii.ltb "G" c0).
  - intros Hin Hd. apply orb_false_iff in Hin. destruct Hin as [HA HG].
    unfold freq. cbn [list_ascii_of_string].
    change (len [c0; c1]) with 2. cbn [Z.ltb Z.gtb Z.eqb Z.compare Pos.compare Pos.compare_cont Pos.eqb].
    change (getitem [c0; c1] 0) with (Ok c0).
    change (getitem [c0; c1] 1) with (Ok c1). cbn [mbind result_bind].
    rewrite HA, HG. unfold py_int_char. rewrite Hd. reflexivity.
  - intros Hin Hacc Hd. apply orb_false_iff in Hin. destruct Hin as [HA HG].
    unfold freq. cbn [list_ascii_of_string].
    change (len [c0; c1; c2]) with 3. cbn [Z.ltb Z.gtb Z.eqb Z.compare Pos.compare Pos.compare_cont Pos.eqb].
    change (getitem [c0; c1; c2] 0) with (Ok c0).
    change (getitem [c0; c1; c2] 1) with (Ok c1).
    change (getitem [c0; c1; c2] 2) with (Ok c2). cbn [mbind result_bind].
    rewrite HA, HG. unfold py_int_char. rewrite Hd.
    destruct Hacc as [-> | ->]; reflexivity.
Qed.

Lemma freq_malformed_witness :
  freq "A" = Ok 0%R /\
  freq "A#10" = Ok 0%R /\
  freq "H4" = Ok 0%R /\
  freq "Ax4" = Ok 0%R /\
  freq "Ax" = Raise ValueError /\
  freq "A#x" = Raise ValueError.
Proof.
  split; [|split; [|split; [|split; [|split]]]].
  - apply (proj1 (freq_malformed "A" "A" "A" "A" "")). left. simpl. lia.
  - apply (proj1 (freq_malformed "A#10" "A" "A" "A" "")). right. simpl. lia.
  - apply (proj1 (proj2 (freq_malformed "" "H" "4" "4" "4"))). reflexivity.
  - apply (proj1 (proj2 (proj2 (freq_malformed "" "A" "x" "4" "")))); discriminate.
  - apply (proj1 (proj2 (proj2 (proj2 (freq_malformed "" "A" "x" "4" ""))))); reflexivity.
  - apply (proj2 (proj2 (proj2 (proj2 (freq_malformed "" "A" "#" "x" ""))))).
    + reflexivity.
    + right; reflexivity.
    + reflexivity.
Defined.

(** C5 as stated fails: for the letter H, and for a bad accidental,
    [freq] returns 0 and raises nothing. *)
Lemma freq_malformed_counterexample :
  freq "H4" = Ok 0%R /\ freq "Ax4" = Ok 0%R.
Proof. split; reflexivity. Qed.

(** * Further properties of the notebook's functions *)

(** ** The feedback loop in closed form *)

Lemma for_loop_ext {St} (body1 body2 : Z -> St -> result St) (k : nat) :
  (forall n s, body1 n s = body2 n s) ->
  forall n0 s, for_loop k n0 body1 s = for_loop k n0 body2 s.
Proof.
  intros Hext. induction k as [|k IH]; intros n0 s; [reflexivity|].
  cbn [for_loop]. rewrite Hext. destruct (body2 n0 s) as [s'|e]; cbn; auto.
Qed.

Lemma KS_2_body_unit_gain (x : list R) (M n : Z) (y : list R) :
  KS_2_body x M n y = KS_body x M 1 n y.
Proof.
  unfold KS_2_body, KS_body.
  destruct (if n <? M then getitem x n else Ok 0%R) as [xn|e]; [|reflexivity].
  cbn. destruct (if n - M >=? 0 then getitem y (n - M) else Ok 0%R) as [yd|e];
    [|reflexivity].
  cbn. f_equal. ring.
Qed.

Lemma KS_3_run (x : list R) (N : Z) (alpha : R) :
  0 <= N -> exists y, KS_3 x N alpha = Ok y /\ recurrence_holds x N alpha y.
Proof.
  intros HN. unfold KS_3, np_zeros.
  destruct (Z.ltb_spec N 0); [lia|]. cbn.
  now apply KS_loop_recurrence.
Qed.

(** A buffer that satisfies the recurrence is the excitation, repeated
    and scaled by one more factor [a] on each pass. *)
Lemma recurrence_closed_form (x : list R) (N : Z) (a : R) (y : list R) :
  1 <= len x -> recurrence_holds x N a y ->
  forall n, 0 <= n < N ->
    sample y n = (a ^ Z.to_nat (n / len x) * sample x (n mod len x))%R.
Proof.
  intros HM [_ Hrec] n Hn. destruct Hn as [Hn0 HnN]. revert HnN.
  pattern n. apply (Zlt_0_ind); [|exact Hn0].
  clear n Hn0. intros n IH Hn0 HnN.
  rewrite Hrec by lia.
  destruct (Z.ltb_spec n (len x)) as [Hlt|Hge].
  - destruct (Z.leb_spec 0 (n - len x)); [lia|].
    rewrite Z.div_small, Z.mod_small by lia.
    change (Z.to_nat 0) with 0%nat. rewrite pow_O. ring.
  - destruct (Z.leb_spec 0 (n - len x)); [|lia].
    rewrite IH by lia.
    assert (Hq : n / len x = (n - len x) / len x + 1).
    { replace n with ((n - len x) + 1 * len x) at 1 by ring.
      rewrite Z_div_plus by lia. reflexivity. }
    assert (Hr : n mod len x = (n - len x) mod len x).
    { replace n with ((n - len x) + 1 * len x) at 1 by ring.
      now rewrite Z_mod_plus_full. }
    assert (Hq0 : 0 <= (n - len x) / len x) by (apply Z.div_pos; lia).
    rewrite Hq, Hr, Z2Nat.inj_add by lia.
    change (Z.to_nat 1) with 1%nat. rewrite pow_add, pow_1. ring.
Qed.

Lemma passes_pow (a : R) (k : nat) (v : R) : passes a k v = (a ^ k * v)%R.
Proof.
  unfold passes. induction k as [|k IH].
  - rewrite pow_O. cbn. ring.
  - rewrite Nat.iter_succ, IH. rewrite <- tech_pow_Rmult. ring.
Qed.

(** Two buffers of one length with the same samples are the same. *)
Lemma list_eq_samples (y z : list R) :
  len y = len z ->
  (forall n, 0 <= n < len y -> sample y n = sample z n) ->
  y = z.
Proof.
  unfold len, sample. intros Hlen Hs. apply list_eq. intros i.
  destruct (decide (i < length y)%nat) as [Hi|Hi].
  - rewrite !list_lookup_lookup_total_lt by lia. f_equal.
    specialize (Hs (Z.of_nat i) ltac:(lia)). now rewrite Nat2Z.id in Hs.
  - rewrite !(proj2 (lookup_ge_None _ _)) by lia. reflexivity.
Qed.

(** A buffer is determined by the recurrence when [M >= 1]. *)
Lemma recurrence_unique (x : list R) (N : Z) (a : R) (y z : list R) :
  1 <= len x -> recurrence_holds x N a y -> recurrence_holds x N a z -> y = z.
Proof.
  intros HM Hy Hz. apply list_eq_samples.
  - destruct Hy as [-> _]. now destruct Hz as [-> _].
  - intros n Hn. destruct Hy as [Hly Hy']. rewrite Hly in Hn.
    rewrite (recurrence_closed_form x N a y HM (conj Hly Hy') n Hn).
    now rewrite (recurrence_closed_form x N a z HM Hz n Hn).
Qed.

Lemma py_pow_exponent_one (alpha : R) : py_pow alpha 1 = Ok alpha.
Proof.
  unfold py_pow.
  destruct (Req_dec_T 1 0) as [?|_]; [lra|].
  destruct (Rlt_dec 0 alpha) as [Hp|Hp]; [now rewrite Rpower_1|].
  destruct (Req_dec_T alpha 0) as [->|Hz].
  - destruct (Rlt_dec 0 1); [reflexivity | lra].
  - assert (Hi : Int_part 1 = 1) by (symmetry; apply Int_part_spec; lra).
    unfold is_integer. rewrite Hi.
    destruct (Req_dec_T 1 (IZR 1)) as [_|?]; [|contradiction].
    f_equal. apply powerRZ_1.
Qed.

Lemma py_pow_unit_interval (alpha e a : R) :
  (0 <= alpha <= 1)%R -> (0 <= e)%R -> py_pow alpha e = Ok a -> (0 <= a <= 1)%R.
Proof.
  intros Halpha He. unfold py_pow.
  destruct (Req_dec_T e 0) as [?|Hne]; [intros [= <-]; lra|].
  destruct (Rlt_dec 0 alpha) as [Hp|Hp].
  - intros [= <-]. split; [left; apply Rpower_pos|].
    unfold Rpower. rewrite <- exp_0.
    destruct (Req_dec_T alpha 1) as [->|H1].
    + rewrite ln_1, Rmult_0_r. lra.
    + left. apply exp_increasing.
      assert (Hln : (ln alpha < 0)%R)
        by (rewrite <- ln_1; apply ln_increasing; lra).
      assert (He' : (0 < e)%R) by lra. nra.
  - destruct (Req_dec_T alpha 0) as [_|?]; [|lra].
    destruct (Rlt_dec 0 e); [intros [= <-]; lra | discriminate].
Qed.

Lemma pow_unit_interval (a : R) (k : nat) :
  (0 <= a <= 1)%R -> (0 <= a ^ k <= 1)%R.
Proof.
  intros Ha. induction k as [|k IH]; cbn; [lra | nra].
Qed.

(** ** [KS_3]: the raw feedback gain *)

(** For an excitation of length [M >= 1] and [N >= 0], [KS_3] returns
    [N] samples, and [y[n]] is [x[n % M]] multiplied by [alpha] once for
    each of the [n // M] passes through the loop, in the order
    [alpha * (alpha * (... * x[n % M]))]. *)
Theorem KS_3_closed_form (x : list R) (N : Z) (alpha : R) :
  1 <= len x -> 0 <= N ->
  exists y, KS_3 x N alpha = Ok y /\ len y = N /\
    forall n, 0 <= n < N ->
      sample y n = passes alpha (Z.to_nat (n / len x)) (sample x (n mod len x)).
Proof.
  intros HM HN. destruct (KS_3_run x N alpha HN) as (y & Hy & Hrec).
  exists y. split; [assumption|]. split; [apply Hrec|].
  intros n Hn. rewrite passes_pow. now apply (recurrence_closed_form x N alpha y).
Qed.

Lemma KS_3_closed_form_witness :
  exists y, KS_3 [1; 2]%R 5 (1 / 2) = Ok y /\ len y = 5 /\
    forall n, 0 <= n < 5 ->
      sample y n = passes (1 / 2) (Z.to_nat (n / len [1; 2]%R))
                     (sample [1; 2]%R (n mod len [1; 2]%R)).
Proof.
  apply (KS_3_closed_form [1; 2]%R 5 (1 / 2)).
  - unfold len. simpl. lia.
  - lia.
Defined.

(** [KS_3] raises exactly when [N < 0], and then [ValueError]; for
    [N >= 0] it returns [N] samples whatever the excitation (also the
    empty one) and whatever [alpha]: no read or write of the loop leaves
    its buffer. *)
Theorem KS_3_raises_iff (x : list R) (N : Z) (alpha : R) :
  (N < 0 -> KS_3 x N alpha = Raise ValueError) /\
  (0 <= N -> exists y, KS_3 x N alpha = Ok y /\ len y = N).
Proof.
  split.
  - intros HN. unfold KS_3, np_zeros. destruct (Z.ltb_spec N 0); [reflexivity | lia].
  - intros HN. destruct (KS_3_run x N alpha HN) as (y & Hy & Hlen & _). eauto.
Qed.

Lemma KS_3_raises_iff_witness :
  KS_3 [1; 2]%R (-3) (1 / 2) = Raise ValueError /\
  exists y, KS_3 [] 4 2 = Ok y /\ len y = 4.
Proof.
  split.
  - apply (proj1 (KS_3_raises_iff [1; 2]%R (-3) (1 / 2))). lia.
  - apply (proj2 (KS_3_raises_iff [] 4 2)). lia.
Defined.

(** ** [KS_2]: the periodic extension *)

Lemma KS_2_as_KS_3 (x : list R) (N : Z) : KS_2 x N = KS_3 x N 1.
Proof.
  unfold KS_2, KS_3. destruct (np_zeros N) as [y|e]; [|reflexivity].
  cbn. unfold for_range. apply for_loop_ext. apply KS_2_body_unit_gain.
Qed.

Lemma KS_2_periodic_run (x : list R) (N : Z) :
  1 <= len x -> 0 <= N ->
  exists y, KS_2 x N = Ok y /\ len y = N /\
    forall n, 0 <= n < N -> sample y n = sample x (n mod len x).
Proof.
  intros HM HN. rewrite KS_2_as_KS_3.
  destruct (KS_3_run x N 1 HN) as (y & Hy & Hrec).
  exists y. split; [assumption|]. split; [apply Hrec|].
  intros n Hn. rewrite (recurrence_closed_form x N 1 y HM Hrec n Hn).
  rewrite pow1. ring.
Qed.

(** For an excitation of length [M >= 1] and [N >= 0], [KS_2] returns
    [N] samples with [y[n] = x[n % M]]. *)
Theorem KS_2_periodic (x : list R) (N : Z) :
  1 <= len x -> 0 <= N ->
  exists y, KS_2 x N = Ok y /\ len y = N /\
    forall n, 0 <= n < N -> sample y n = sample x (n mod len x).
Proof. exact (KS_2_periodic_run x N). Qed.

Lemma KS_2_periodic_witness :
  exists y, KS_2 [1; 2; 3]%R 7 = Ok y /\ len y = 7 /\
    forall n, 0 <= n < 7 -> sample y n = sample [1; 2; 3]%R (n mod len [1; 2; 3]%R).
Proof.
  apply (KS_2_periodic [1; 2; 3]%R 7).
  - unfold len. simpl. lia.
  - lia.
Defined.

(** With [alpha = 1] the three loops agree on every input, exceptions
    included: [KS(x, N, 1) = KS_3(x, N, 1) = KS_2(x, N)]. *)
Theorem KS_unit_gain_agree (x : list R) (N : Z) :
  KS x N 1 = KS_3 x N 1 /\ KS_3 x N 1 = KS_2 x N.
Proof.
  split; [|symmetry; apply KS_2_as_KS_3].
  unfold KS, KS_3. now rewrite py_pow_one.
Qed.

(** On an excitation of exactly 50 samples the compensation of [KS] is
    neutral: [KS(x, N, alpha) = KS_3(x, N, alpha)] for every [N] and
    every [alpha], negative ones included. *)
Theorem KS_at_reference_length (x : list R) (N : Z) (alpha : R) :
  len x = REF_LEN -> KS x N alpha = KS_3 x N alpha.
Proof.
  intros HM. unfold KS, KS_3. rewrite HM.
  replace (IZR REF_LEN / IZR REF_LEN)%R with 1%R by (unfold REF_LEN; field).
  now rewrite py_pow_exponent_one.
Qed.

Lemma KS_at_reference_length_witness :
  KS (replicate 50 1%R) 120 (- (1 / 2)) = KS_3 (replicate 50 1%R) 120 (- (1 / 2)).
Proof.
  apply (KS_at_reference_length (replicate 50 1%R) 120 (- (1 / 2))).
  reflexivity.
Defined.

(** ** [KS]: the envelope *)

Lemma KS_closed_run (x : list R) (N : Z) (alpha a : R) :
  1 <= len x -> 0 <= N ->
  py_pow alpha (IZR (len x) / IZR REF_LEN) = Ok a ->
  exists y, KS x N alpha = Ok y /\ len y = N /\
    forall n, 0 <= n < N ->
      sample y n = (a ^ Z.to_nat (n / len x) * sample x (n mod len x))%R.
Proof.
  intros HM HN Ha. destruct (KS_run x N alpha a HN Ha) as (y & Hy & Hrec).
  exists y. split; [assumption|]. split; [apply Hrec|].
  now apply recurrence_closed_form.
Qed.

(** For [0 <= alpha <= 1], an excitation of length [M >= 1] and
    [N >= 0], [KS] returns [N] samples; its coefficient
    [a = alpha ** (M / 50)] lies in [0, 1], and [y[n]] is [x[n % M]]
    multiplied by [a] once for each of the [n // M] passes through the
    loop, in the order [a * (a * (... * x[n % M]))]. *)
Theorem KS_closed_form (x : list R) (N : Z) (alpha : R) :
  1 <= len x -> 0 <= N -> (0 <= alpha <= 1)%R ->
  exists a y,
    py_pow alpha (IZR (len x) / IZR REF_LEN) = Ok a /\ (0 <= a <= 1)%R /\
    KS x N alpha = Ok y /\ len y = N /\
    forall n, 0 <= n < N ->
      sample y n = passes a (Z.to_nat (n / len x)) (sample x (n mod len x)).
Proof.
  intros HM HN Halpha.
  destruct (py_pow_ratio_ok alpha (len x)) as [a Ha]; [lia | left; lra |].
  assert (Ha01 : (0 <= a <= 1)%R).
  { apply (py_pow_unit_interval alpha (IZR (len x) / IZR REF_LEN)); try assumption.
    unfold REF_LEN. apply IZR_le in HM. apply Rmult_le_pos; lra. }
  destruct (KS_closed_run x N alpha a HM HN Ha) as (y & Hy & Hlen & Hform).
  exists a, y. repeat split; try assumption; try apply Ha01.
  intros n Hn. rewrite passes_pow. now apply Hform.
Qed.

Lemma KS_closed_form_witness :
  exists a y,
    py_pow (1 / 2) (IZR (len [1; 2]%R) / IZR REF_LEN) = Ok a /\ (0 <= a <= 1)%R /\
    KS [1; 2]%R 6 (1 / 2) = Ok y /\ len y = 6 /\
    forall n, 0 <= n < 6 ->
      sample y n = passes a (Z.to_nat (n / len [1; 2]%R))
                     (sample [1; 2]%R (n mod len [1; 2]%R)).
Proof.
  apply (KS_closed_form [1; 2]%R 6 (1 / 2)).
  - unfold len. simpl. lia.
  - lia.
  - lra.
Defined.

(** For [0 <= alpha <= 1] the output of [KS] never exceeds the peak of
    the excitation: if [|x[i]| <= B] for every [i] then [|y[n]| <= B] for
    every [n]. *)
Theorem KS_bounded (x : list R) (N : Z) (alpha B : R) :
  1 <= len x -> 0 <= N -> (0 <= alpha <= 1)%R ->
  (forall i, 0 <= i < len x -> (Rabs (sample x i) <= B)%R) ->
  exists y, KS x N alpha = Ok y /\ len y = N /\
    forall n, 0 <= n < N -> (Rabs (sample y n) <= B)%R.
Proof.
  intros HM HN Halpha HB.
  destruct (py_pow_ratio_ok alpha (len x)) as [a Ha]; [lia | left; lra |].
  assert (Ha01 : (0 <= a <= 1)%R).
  { apply (py_pow_unit_interval alpha (IZR (len x) / IZR REF_LEN)); try assumption.
    unfold REF_LEN. apply IZR_le in HM. apply Rmult_le_pos; lra. }
  destruct (KS_closed_run x N alpha a HM HN Ha) as (y & Hy & Hlen & Hform).
  exists y. split; [assumption|]. split; [assumption|].
  intros n Hn. rewrite Hform by assumption.
  pose proof (pow_unit_interval a (Z.to_nat (n / len x)) Ha01) as Hp.
  assert (Hi : 0 <= n mod len x < len x) by (apply Z.mod_pos_bound; lia).
  specialize (HB _ Hi). rewrite Rabs_mult, (Rabs_pos_eq (a ^ _)) by lra.
  pose proof (Rabs_pos (sample x (n mod len x))). nra.
Qed.

Lemma KS_bounded_witness :
  exists y, KS [1; -2]%R 6 (1 / 2) = Ok y /\ len y = 6 /\
    forall n, 0 <= n < 6 -> (Rabs (sample y n) <= 2)%R.
Proof.
  apply (KS_bounded [1; -2]%R 6 (1 / 2) 2).
  - unfold len. simpl. lia.
  - lia.
  - lra.
  - intros i Hi. unfold len in Hi. simpl in Hi.
    assert (Hc : i = 0 \/ i = 1) by lia.
    destruct Hc as [-> | ->].
    + change (sample [1; -2]%R 0) with 1%R. rewrite Rabs_pos_eq; lra.
    + change (sample [1; -2]%R 1) with (-2)%R. rewrite Rabs_left; lra.
Defined.

(** ** Edge cases of the loops *)

Lemma KS_loop_empty (a : R) (N : Z) :
  0 <= N ->
  for_range 0 N (KS_body [] (len (@nil R)) a) (replicate (Z.to_nat N) 0%R)
    = Ok (replicate (Z.to_nat N) 0%R).
Proof.
  intros HN. unfold for_range.
  assert (Hz : len (replicate (Z.to_nat N) 0%R) = N)
    by (unfold len; rewrite length_replicate; lia).
  destruct (KS_loop_inv [] a N (Z.to_nat (N - 0)) 0 (replicate (Z.to_nat N) 0%R))
    as (y & Hrun & Hlen & _ & Hin); [lia | lia | exact Hz |].
  rewrite Hrun. f_equal. apply list_eq_samples; [now rewrite Hz|].
  intros n Hn. rewrite Hin by lia.
  unfold excitation_term. change (len (@nil R)) with 0.
  destruct (Z.ltb_spec n 0); [lia|].
  destruct (Z.leb_spec 0 (n - 0)); [|lia].
  cbn. rewrite !sample_zeros. ring.
Qed.

(** On an empty excitation the three loops return [N] zeros, for every
    [N >= 0] and every [alpha]: nothing is read from [x], and the
    feedback reads the sample that is about to be written, still 0. *)
Theorem KS_empty_excitation (N : Z) (alpha : R) :
  0 <= N ->
  KS [] N alpha = Ok (replicate (Z.to_nat N) 0%R) /\
  KS_3 [] N alpha = Ok (replicate (Z.to_nat N) 0%R) /\
  KS_2 [] N = Ok (replicate (Z.to_nat N) 0%R).
Proof.
  intros HN.
  assert (H3 : forall a, KS_3 [] N a = Ok (replicate (Z.to_nat N) 0%R)).
  { intros a. unfold KS_3, np_zeros. destruct (Z.ltb_spec N 0); [lia|]. cbn.
    now apply KS_loop_empty. }
  split; [|split; [apply H3 | rewrite KS_2_as_KS_3; apply H3]].
  unfold KS, py_pow.
  destruct (Req_dec_T (IZR (len (@nil R)) / IZR REF_LEN) 0) as [_|Hne].
  - cbn. unfold np_zeros. destruct (Z.ltb_spec N 0); [lia|]. cbn.
    now apply KS_loop_empty.
  - exfalso. apply Hne. unfold REF_LEN. change (len (@nil R)) with 0. lra.
Qed.

Lemma KS_empty_excitation_witness :
  KS [] 3 (- 2) = Ok (replicate (Z.to_nat 3) 0%R) /\
  KS_3 [] 3 (- 2) = Ok (replicate (Z.to_nat 3) 0%R) /\
  KS_2 [] 3 = Ok (replicate (Z.to_nat 3) 0%R).
Proof. apply (KS_empty_excitation 3 (- 2)). lia. Defined.

(** With [alpha = 0] the feedback of [KS] is cut: for an excitation of
    length [M >= 1] the output is the excitation once, then zeros. *)
Theorem KS_zero_alpha (x : list R) (N : Z) :
  1 <= len x -> 0 <= N ->
  exists y, KS x N 0 = Ok y /\ len y = N /\
    forall n, 0 <= n < N ->
      sample y n = if n <? len x then sample x n else 0%R.
Proof.
  intros HM HN.
  assert (Ha : py_pow 0 (IZR (len x) / IZR REF_LEN) = Ok 0%R).
  { assert (Hq : (0 < IZR (len x) / IZR REF_LEN)%R).
    { unfold REF_LEN. apply IZR_le in HM. apply Rmult_lt_0_compat; lra. }
    unfold py_pow.
    destruct (Req_dec_T _ 0) as [?|_]; [lra|].
    destruct (Rlt_dec 0 0) as [?|_]; [lra|].
    destruct (Req_dec_T 0 0) as [_|?]; [|lra].
    destruct (Rlt_dec 0 _); [reflexivity | lra]. }
  destruct (KS_run x N 0 0%R HN Ha) as (y & Hy & Hlen & Hrec).
  exists y. split; [assumption|]. split; [assumption|].
  intros n Hn. rewrite Hrec by assumption. ring.
Qed.

Lemma KS_zero_alpha_witness :
  exists y, KS [1; 2]%R 5 0 = Ok y /\ len y = 5 /\
    forall n, 0 <= n < 5 ->
      sample y n = if n <? len [1; 2]%R then sample [1; 2]%R n else 0%R.
Proof.
  apply (KS_zero_alpha [1; 2]%R 5).
  - unfold len. simpl. lia.
  - lia.
Defined.

(** ** [KS_1]: what the copies hold, and when the loop does not run *)

Section KS_1_content.

Context {A : Type}.
Variables (x : list A) (N : Z).
Hypothesis x_nonempty : 1 <= len x.

Lemma copies_of_app (y : list A) : copies_of x y -> copies_of x (y ++ x).
Proof.
  intros [(k & Hk & Hlen) Hy]. split.
  - exists (k + 1). unfold len in *. rewrite length_app. lia.
  - intros i Hi. rewrite length_app in Hi.
    assert (HL : (0 < length x)%nat) by (unfold len in x_nonempty; lia).
    destruct (decide (i < length y)%nat) as [Hlt|Hge].
    + rewrite lookup_app_l by assumption. now apply Hy.
    + rewrite lookup_app_r by lia. f_equal.
      assert (Hyk : length y = (Z.to_nat k * length x)%nat)
        by (unfold len in Hlen; nia).
      replace i with ((i - length y) + Z.to_nat k * length x)%nat at 2 by lia.
      rewrite Nat.Div0.mod_add. symmetry. apply Nat.mod_small. lia.
Qed.

Lemma KS_1_loop_copies (fuel : nat) :
  forall y y', copies_of x y -> KS_1_loop fuel x y N = Some y' -> copies_of x y'.
Proof.
  induction fuel as [|fuel IH]; intros y y' Hy; cbn [KS_1_loop];
    destruct (len y <? N); try discriminate; try (intros [= <-]; assumption).
  apply IH. now apply copies_of_app.
Qed.

Lemma copies_of_self : copies_of x x.
Proof.
  split.
  - exists 1. lia.
  - intros i Hi. now rewrite Nat.mod_small.
Qed.

End KS_1_content.

Lemma KS_1_run_copies {A : Type} (x : list A) (N : Z) :
  1 <= len x -> 0 <= N ->
  exists y,
    (forall fuel, (Z.to_nat N <= fuel)%nat -> KS_1 fuel x N = Some y) /\
    N <= len y /\
    forall i, (i < length y)%nat -> y !! i = x !! (i mod length x)%nat.
Proof.
  intros Hx HN.
  destruct (KS_1_loop_ends x N Hx (Z.to_nat N) x) as
    (y' & Hrun & HNy & _ & _ & _); [lia|].
  pose proof (KS_1_loop_copies x N Hx _ _ _ (copies_of_self x) Hrun) as [_ Hcopy].
  exists (slice_to y' (N + 1)). split; [|split].
  - intros fuel Hfuel. unfold KS_1.
    now rewrite (KS_1_loop_fuel x N (Z.to_nat N) fuel x y' Hrun Hfuel).
  - unfold slice_to. destruct (Z.ltb_spec (N + 1) 0); [lia|].
    unfold len in *. rewrite length_take. lia.
  - unfold slice_to. destruct (Z.ltb_spec (N + 1) 0); [lia|].
    intros i Hi. rewrite length_take in Hi.
    rewrite lookup_take. destruct (decide _) as [_|Hn]; [|lia].
    apply Hcopy. lia.
Qed.

(** For a non-empty buffer and [N >= 0], [KS_1] returns at least [N]
    samples and its sample [i] is [x[i % M]]: whole copies of [x], cut
    after [N + 1] samples. *)
Theorem KS_1_content {A : Type} (x : list A) (N : Z) :
  1 <= len x -> 0 <= N ->
  exists y,
    (forall fuel, (Z.to_nat N <= fuel)%nat -> KS_1 fuel x N = Some y) /\
    N <= len y /\
    forall i, (i < length y)%nat -> y !! i = x !! (i mod length x)%nat.
Proof. exact (KS_1_run_copies x N). Qed.

Lemma KS_1_content_witness :
  exists y,
    (forall fuel, (Z.to_nat 7 <= fuel)%nat -> KS_1 fuel [1; 2; 3] 7 = Some y) /\
    7 <= len y /\
    forall i, (i < length y)%nat -> y !! i = [1; 2; 3] !! (i mod length [1; 2; 3])%nat.
Proof.
  apply (KS_1_content [1; 2; 3] 7).
  - unfold len. simpl. lia.
  - lia.
Defined.

(** The loop of [KS_2] computes what the copying of [KS_1] does: for a
    non-empty buffer and [N >= 0], [KS_2(x, N)] is [KS_1(x, N)[0:N]]. *)
Theorem KS_2_prefix_of_KS_1 (x : list R) (N : Z) :
  1 <= len x -> 0 <= N ->
  exists y1,
    (forall fuel, (Z.to_nat N <= fuel)%nat -> KS_1 fuel x N = Some y1) /\
    KS_2 x N = Ok (slice_to y1 N).
Proof.
  intros Hx HN.
  destruct (KS_1_run_copies x N Hx HN) as (y1 & Hrun & Hlen1 & Hcopy).
  destruct (KS_2_periodic_run x N Hx HN) as (y2 & Hy2 & Hlen2 & Hper).
  exists y1. split; [exact Hrun|]. rewrite Hy2. f_equal.
  unfold slice_to. destruct (Z.ltb_spec N 0); [lia|].
  rewrite Z.min_l by lia.
  assert (Hlt : len (take (Z.to_nat N) y1) = N)
    by (unfold len in *; rewrite length_take; lia).
  apply list_eq_samples; [now rewrite Hlt|].
  intros n Hn. rewrite Hlen2 in Hn. rewrite Hper by assumption.
  unfold sample. rewrite lookup_total_take_lt by lia.
  assert (Hi : (Z.to_nat n < length y1)%nat) by (unfold len in *; lia).
  specialize (Hcopy _ Hi).
  rewrite (list_lookup_total_alt y1), Hcopy, <- list_lookup_total_alt.
  f_equal. unfold len. rewrite Z2Nat.inj_mod by lia. now rewrite Nat2Z.id.
Qed.

Lemma KS_2_prefix_of_KS_1_witness :
  exists y1,
    (forall fuel, (Z.to_nat 7 <= fuel)%nat -> KS_1 fuel [1; 2; 3]%R 7 = Some y1) /\
    KS_2 [1; 2; 3]%R 7 = Ok (slice_to y1 7).
Proof.
  apply (KS_2_prefix_of_KS_1 [1; 2; 3]%R 7).
  - unfold len. simpl. lia.
  - lia.
Defined.

(** A negative [N] makes [KS_1] neither loop nor raise: the [while] test
    fails at once and the trim [y[0:N+1]] leaves a prefix of [x], empty
    for [N = -1] and [x] without its last [-(N+1)] samples below that. *)
Theorem KS_1_negative_length {A : Type} (x : list A) (N : Z) (fuel : nat) :
  N < 0 ->
  KS_1 fuel x N =
    Some (if N =? -1 then [] else take (Z.to_nat (len x + N + 1)) x).
Proof.
  intros HN. unfold KS_1.
  assert (Hloop : KS_1_loop fuel x x N = Some x).
  { pose proof (len_nonneg x).
    destruct fuel; cbn [KS_1_loop];
      (destruct (Z.ltb_spec (len x) N); [lia | reflexivity]). }
  rewrite Hloop. f_equal. unfold slice_to.
  pose proof (len_nonneg x) as Hx.
  destruct (Z.eqb_spec N (-1)) as [->|Hne].
  - destruct (Z.ltb_spec (-1 + 1) 0); [lia|].
    now rewrite Z.min_l by lia.
  - destruct (Z.ltb_spec (N + 1) 0) as [Hlt|?]; [|lia].
    destruct (Z.le_gt_cases 0 (N + 1 + len x)).
    + rewrite Z.max_r by lia. f_equal. lia.
    + rewrite Z.max_l by lia.
      now replace (Z.to_nat (len x + N + 1)) with (Z.to_nat 0) by lia.
Qed.

Lemma KS_1_negative_length_witness :
  KS_1 0 [1; 2; 3] (-2) =
    Some (if -2 =? -1 then [] else take (Z.to_nat (len [1; 2; 3] + -2 + 1)) [1; 2; 3]).
Proof. apply (KS_1_negative_length [1; 2; 3] (-2) 0). lia. Defined.

(** On an empty buffer and [N >= 1] the loop of [KS_1] never ends:
    no amount of fuel gives a result. *)
Theorem KS_1_empty_never_returns {A : Type} (N : Z) (fuel : nat) :
  1 <= N -> KS_1 fuel (@nil A) N = None.
Proof.
  intros HN. unfold KS_1.
  assert (H : KS_1_loop fuel (@nil A) [] N = None).
  { induction fuel as [|fuel IH]; cbn [KS_1_loop];
      change (len (@nil A)) with 0;
      (destruct (Z.ltb_spec 0 N); [|lia]); [reflexivity | exact IH]. }
  now rewrite H.
Qed.

Lemma KS_1_empty_never_returns_witness : KS_1 1000 (@nil R) 5 = None.
Proof. apply (KS_1_empty_never_returns 5 1000). lia. Defined.

(** ** [freq] on arbitrary strings *)

Lemma letter_of_char (c : ascii) :
  outside_A_G c = false -> exists l, c = letter_char l.
Proof.
  destruct c as [[] [] [] [] [] [] [] []]; intros H; vm_compute in H;
    try discriminate H;
    first [ now exists LA | now exists LB | now exists LC | now exists LD
          | now exists LE | now exists LF | now exists LG ].
Qed.

Lemma digit_of_char (c : ascii) :
  is_digit c = true ->
  exists d, 0 <= d <= 9 /\ py_int_char c = Ok d /\
            NilZero.string_of_int (Z.to_int d) = String c "".
Proof.
  destruct c as [[] [] [] [] [] [] [] []]; intros H; vm_compute in H;
    try discriminate H;
    match goal with
    | |- exists d, _ /\ py_int_char ?c = _ /\ _ =>
        exists (Z.of_N (N_of_ascii c) - 48)
    end; (split; [vm_compute; split; discriminate | split; reflexivity]).
Qed.

Lemma freq_one_char (c : ascii) : freq (String c "") = Ok 0%R.
Proof. reflexivity. Qed.

Lemma freq_two_chars (c0 c1 : ascii) :
  freq (String c0 (String c1 "")) =
    if outside_A_G c0 then Ok 0%R
    else octave ← py_int_char c1; freq_tail c0 0 octave.
Proof.
  unfold freq, outside_A_G. cbn [list_ascii_of_string].
  change (len [c0; c1]) with 2.
  cbn [Z.ltb Z.gtb Z.eqb Z.compare Pos.compare Pos.compare_cont Pos.eqb].
  change (getitem [c0; c1] 0) with (Ok c0).
  change (getitem [c0; c1] 1) with (Ok c1). cbn [mbind result_bind].
  destruct (Ascii.ltb c0 "A"); [reflexivity|].
  destruct (Ascii.ltb "G" c0); reflexivity.
Qed.

Lemma freq_three_chars (c0 c1 c2 : ascii) :
  freq (String c0 (String c1 (String c2 ""))) =
    if outside_A_G c0 then Ok 0%R
    else if Ascii.eqb c1 "b" then octave ← py_int_char c2; freq_tail c0 (-1) octave
    else if Ascii.eqb c1 "#" then octave ← py_int_char c2; freq_tail c0 1 octave
    else Ok 0%R.
Proof.
  unfold freq, outside_A_G. cbn [list_ascii_of_string].
  change (len [c0; c1; c2]) with 3.
  cbn [Z.ltb Z.gtb Z.eqb Z.compare Pos.compare Pos.compare_cont Pos.eqb].
  change (getitem [c0; c1; c2] 0) with (Ok c0).
  change (getitem [c0; c1; c2] 1) with (Ok c1).
  change (getitem [c0; c1; c2] 2) with (Ok c2). cbn [mbind result_bind].
  destruct (Ascii.ltb c0 "A"); [reflexivity|].
  destruct (Ascii.ltb "G" c0); reflexivity.
Qed.

Lemma freq_long (c0 c1 c2 c3 : ascii) (rest : string) :
  freq (String c0 (String c1 (String c2 (String c3 rest)))) = Ok 0%R.
Proof.
  unfold freq. cbn [list_ascii_of_string].
  set (t := list_ascii_of_string rest).
  assert (Hlen : len (c0 :: c1 :: c2 :: c3 :: t) = 4 + len t)
    by (unfold len; cbn [length]; lia).
  rewrite Hlen. pose proof (len_nonneg t).
  destruct (Z.ltb_spec (4 + len t) 2); [reflexivity|].
  destruct (Z.gtb_spec (4 + len t) 3); [reflexivity | lia].
Qed.

Lemma equal_tempered_pos (p : Pitch) : (0 < equal_tempered p)%R.
Proof.
  unfold equal_tempered.
  pose proof (Rpower_pos 2 (IZR (semitones_from_A4 p) / 12)). lra.
Qed.

(** The end of [freq] on a letter, an accidental and a digit is the
    frequency of the pitch they spell. *)
Lemma freq_tail_pitch (l : Letter) (a : Accidental) (c : ascii) :
  is_digit c = true ->
  exists p, 0 <= octave p <= 9 /\
    String (letter_char l) (accidental_token a ++ String c "") = note_name p /\
    (octave ← py_int_char c; freq_tail (letter_char l) (accidental_value a) octave)
      = Ok (equal_tempered p).
Proof.
  intros Hd. destruct (digit_of_char c Hd) as (d & Hd9 & Hint & Hstr).
  exists (mkPitch l a d). split; [exact Hd9|]. split.
  - unfold note_name. cbn [letter accidental octave]. now rewrite Hstr.
  - rewrite Hint. cbn [mbind result_bind]. apply freq_tail_ok.
Qed.

(** Whatever the string, [freq] does one of three things: it returns 0,
    it raises [ValueError], or the string spells a pitch with a one-digit
    octave and [freq] returns the (positive) frequency of that pitch.  It
    never raises [IndexError] or [KeyError]: no read leaves the string and
    the [SEMITONES] lookup never misses. *)
Theorem freq_trichotomy (note : string) :
  freq note = Ok 0%R \/
  freq note = Raise ValueError \/
  exists p, 0 <= octave p <= 9 /\ note = note_name p /\
            freq note = Ok (equal_tempered p) /\ (0 < equal_tempered p)%R.
Proof.
  destruct note as [|c0 [|c1 [|c2 [|c3 rest]]]].
  - left. reflexivity.
  - left. apply freq_one_char.
  - rewrite freq_two_chars. destruct (outside_A_G c0) eqn:Hout; [now left|].
    destruct (letter_of_char c0 Hout) as [l ->].
    destruct (is_digit c1) eqn:Hd.
    + right. right. destruct (freq_tail_pitch l Natural c1 Hd) as (p & Ho & Hn & Hf).
      exists p. repeat split; try assumption; try apply Ho. apply equal_tempered_pos.
    + right. left. unfold py_int_char. now rewrite Hd.
  - rewrite freq_three_chars. destruct (outside_A_G c0) eqn:Hout; [now left|].
    destruct (letter_of_char c0 Hout) as [l ->].
    destruct (Ascii.eqb_spec c1 "b") as [->|Hb].
    + destruct (is_digit c2) eqn:Hd.
      * right. right. destruct (freq_tail_pitch l Flat c2 Hd) as (p & Ho & Hn & Hf).
        exists p. repeat split; try assumption; try apply Ho. apply equal_tempered_pos.
      * right. left. unfold py_int_char. now rewrite Hd.
    + destruct (Ascii.eqb_spec c1 "#") as [->|Hs]; [|now left].
      destruct (is_digit c2) eqn:Hd.
      * right. right. destruct (freq_tail_pitch l Sharp c2 Hd) as (p & Ho & Hn & Hf).
        exists p. repeat split; try assumption; try apply Ho. apply equal_tempered_pos.
      * right. left. unfold py_int_char. now rewrite Hd.
  - left. apply freq_long.
Qed.

(** Between well-formed notes the frequency follows the semitone count:
    [freq] is strictly increasing in it, and two spellings of one
    semitone count (C#4 and Db4) get one frequency. *)
Theorem freq_monotone (p q : Pitch) :
  0 <= octave p <= 9 -> 0 <= octave q <= 9 ->
  exists f g,
    freq (note_name p) = Ok f /\ freq (note_name q) = Ok g /\
    ((f < g)%R <-> semitones_from_A4 p < semitones_from_A4 q) /\
    (f = g <-> semitones_from_A4 p = semitones_from_A4 q).
Proof.
  intros Hp Hq. exists (equal_tempered p), (equal_tempered q).
  split; [now apply freq_pitch|]. split; [now apply freq_pitch|].
  unfold equal_tempered.
  set (m := semitones_from_A4 p). set (n := semitones_from_A4 q).
  assert (Hlt : forall a b : Z, a < b ->
            (440 * Rpower 2 (IZR a / 12) < 440 * Rpower 2 (IZR b / 12))%R).
  { intros a b Hab. apply Rmult_lt_compat_l; [lra|].
    apply Rpower_lt; [lra|]. apply IZR_lt in Hab. lra. }
  split; split.
  - intros Hfg. destruct (Z.lt_ge_cases m n) as [?|Hge]; [assumption|].
    exfalso. destruct (Z.eq_dec m n) as [E|E].
    + rewrite E in Hfg. lra.
    + specialize (Hlt n m ltac:(lia)). lra.
  - apply Hlt.
  - intros Hfg. destruct (Z.lt_trichotomy m n) as [H|[H|H]]; [|assumption|].
    + specialize (Hlt m n H). lra.
    + specialize (Hlt n m H). lra.
  - intros ->. reflexivity.
Qed.

Lemma freq_monotone_witness :
  exists f g,
    freq (note_name (mkPitch LC Sharp 4)) = Ok f /\
    freq (note_name (mkPitch LD Flat 4)) = Ok g /\
    ((f < g)%R <-> semitones_from_A4 (mkPitch LC Sharp 4)
                   < semitones_from_A4 (mkPitch LD Flat 4)) /\
    (f = g <-> semitones_from_A4 (mkPitch LC Sharp 4)
               = semitones_from_A4 (mkPitch LD Flat 4)).
Proof.
  apply (freq_monotone (mkPitch LC Sharp 4) (mkPitch LD Flat 4)); simpl; lia.
Defined.

(** ** [ks_chord]: buffer lengths, failures and sums *)

Lemma np_round_near (r : R) : (Rabs (IZR (np_round r) - r) <= 1 / 2)%R.
Proof.
  unfold np_round. destruct (base_Int_part r) as [Hlo Hhi].
  set (f := Int_part r) in *.
  destruct (Rlt_dec (r - IZR f) (1 / 2)) as [H1|H1].
  - rewrite Rabs_left1; lra.
  - assert (Hup : (Rabs (IZR (f + 1) - r) <= 1 / 2)%R)
      by (rewrite plus_IZR; rewrite Rabs_pos_eq; lra).
    destruct (Rlt_dec (1 / 2) (r - IZR f)) as [H2|H2]; [exact Hup|].
    destruct (Z.even f); [|exact Hup].
    rewrite Rabs_left1; lra.
Qed.

Lemma np_round_ge_1 (r : R) : (1 / 2 < r)%R -> 1 <= np_round r.
Proof.
  intros Hr. pose proof (np_round_near r) as Hn.
  assert (H0 : (0 < IZR (np_round r))%R).
  { unfold Rabs in Hn. destruct (Rcase_abs _); lra. }
  apply lt_IZR in H0. lia.
Qed.

Lemma equal_tempered_below_Fs2 (p : Pitch) :
  0 <= octave p <= 9 -> (equal_tempered p < 2 * IZR Fs)%R.
Proof.
  intros Ho. unfold equal_tempered, Fs.
  assert (Hn : semitones_from_A4 p <= 72).
  { unfold semitones_from_A4. destruct (letter p), (accidental p); simpl; lia. }
  assert (H6 : Rpower 2 6 = 64%R).
  { replace 6%R with (INR 6) by (simpl; lra). rewrite Rpower_pow by lra. simpl. lra. }
  assert (Hle : (Rpower 2 (IZR (semitones_from_A4 p) / 12) <= Rpower 2 6)%R).
  { apply Rle_Rpower; [lra|]. apply IZR_le in Hn. lra. }
  lra.
Qed.

Lemma zip_plus_zeros (v : list R) :
  zip_with Rplus (replicate (length v) 0%R) v = v.
Proof. induction v as [|a v IH]; cbn; [reflexivity|]. f_equal; [ring | exact IH]. Qed.

Lemma len_zip_plus (u v : list R) :
  len u = len v -> len (zip_with Rplus u v) = len u.
Proof. unfold len. rewrite length_zip_with. lia. Qed.

Lemma len_np_scale (gain : R) (v : list R) : len (np_scale gain v) = len v.
Proof. unfold len, np_scale. now rewrite length_map. Qed.

Lemma np_add_same_length (u v : list R) :
  len u = len v -> np_add u v = Ok (zip_with Rplus u v).
Proof. intros H. unfold np_add. now rewrite H, Z.eqb_refl. Qed.

(** A buffer returned by [KS] has the requested length. *)
Lemma KS_ok_length (x : list R) (N : Z) (alpha : R) (v : list R) :
  KS x N alpha = Ok v -> len v = N.
Proof.
  intros Hv.
  destruct (py_pow alpha (IZR (len x) / IZR REF_LEN)) as [a|e] eqn:Ha;
    [|unfold KS in Hv; rewrite Ha in Hv; discriminate].
  destruct (Z.lt_ge_cases N 0) as [HN|HN].
  - unfold KS, np_zeros in Hv. rewrite Ha in Hv. cbn in Hv.
    destruct (Z.ltb_spec N 0); [discriminate | lia].
  - destruct (KS_run x N alpha a HN Ha) as (y & Hy & Hlen & _).
    rewrite Hy in Hv. injection Hv as <-. exact Hlen.
Qed.

Section Chord_facts.

Context {Rng : Type} (draw : Rng -> R * Rng).

Lemma randn_loop_length (k : nat) (g : Rng) :
  length (fst (randn_loop draw k g)) = k.
Proof.
  revert g. induction k as [|k IH]; intros g; cbn; [reflexivity|].
  destruct (draw g) as [v g1]. specialize (IH g1).
  destruct (randn_loop draw k g1) as [vs g2]. cbn in *. now rewrite IH.
Qed.

(** One pass of the loop of [ks_chord] on a well-formed note. *)
Lemma ks_chord_loop_step (p : Pitch) (gain : R) (rest : list (string * R))
    (N : Z) (alpha : R) (y : list R) (g : Rng) :
  0 <= octave p <= 9 -> 0 <= N -> (0 <= alpha)%R -> len y = N ->
  let M := np_round (IZR Fs / equal_tempered p) in
  exists x g' v,
    randn_loop draw (Z.to_nat M) g = (x, g') /\
    len x = M /\ 1 <= M /\
    (Rabs (IZR M - IZR Fs / equal_tempered p) <= 1 / 2)%R /\
    KS x N alpha = Ok v /\ len v = N /\
    ks_chord_loop draw ((note_name p, gain) :: rest) N alpha y g
      = ks_chord_loop draw rest N alpha (zip_with Rplus y (np_scale gain v)) g'.
Proof.
  intros Ho HN Halpha Hy M.
  pose proof (equal_tempered_pos p) as Hf.
  pose proof (equal_tempered_below_Fs2 p Ho) as Hf2.
  assert (HM : 1 <= M).
  { apply np_round_ge_1. unfold Fs in *.
    apply (Rmult_lt_reg_r (equal_tempered p)); [assumption|].
    replace (16000 / equal_tempered p * equal_tempered p)%R with 16000%R
      by (field; lra).
    lra. }
  destruct (randn_loop draw (Z.to_nat M) g) as [x g'] eqn:Hx.
  assert (Hlx : len x = M).
  { pose proof (randn_loop_length (Z.to_nat M) g) as Hl. rewrite Hx in Hl.
    cbn in Hl. unfold len. lia. }
  destruct (py_pow_ratio_ok alpha (len x)) as [a Ha]; [lia | now left |].
  destruct (KS_run x N alpha a HN Ha) as (v & Hv & Hlv & _).
  exists x, g', v. repeat split; try assumption; [apply np_round_near|].
  cbn [ks_chord_loop]. rewrite freq_pitch by assumption. cbn [mbind result_bind].
  unfold py_div. destruct (Req_dec_T (equal_tempered p) 0) as [?|_]; [lra|].
  cbn [mbind result_bind]. unfold np_random_randn. fold M.
  destruct (Z.ltb_spec M 0); [lia|]. rewrite Hx. cbn [mbind result_bind].
  rewrite Hv. cbn [mbind result_bind].
  rewrite np_add_same_length by (rewrite len_np_scale; lia).
  reflexivity.
Qed.

Lemma ks_chord_loop_well_formed (chord : list (string * R)) (N : Z) (alpha : R) :
  Forall (fun item => well_formed_note (fst item)) chord ->
  0 <= N -> (0 <= alpha)%R ->
  forall y g, len y = N ->
    exists y' g', ks_chord_loop draw chord N alpha y g = Ok (y', g') /\ len y' = N.
Proof.
  intros Hwf HN Halpha. induction Hwf as [|[note gain] rest Hnote _ IH];
    intros y g Hy.
  - exists y, g. split; [reflexivity | assumption].
  - destruct Hnote as (p & Ho & Hname). cbn in Hname. subst note.
    destruct (ks_chord_loop_step p gain rest N alpha y g Ho HN Halpha Hy)
      as (x & g' & v & _ & _ & _ & _ & _ & Hlv & Hstep).
    rewrite Hstep. apply IH.
    rewrite len_zip_plus; [assumption | rewrite len_np_scale; lia].
Qed.

Lemma ks_chord_loop_app (c1 c2 : list (string * R)) (N : Z) (alpha : R) :
  forall y g,
    ks_chord_loop draw (c1 ++ c2) N alpha y g =
      match ks_chord_loop draw c1 N alpha y g with
      | Ok (y1, g1) => ks_chord_loop draw c2 N alpha y1 g1
      | Raise e => Raise e
      end.
Proof.
  induction c1 as [|[note gain] c1 IH]; intros y g; [reflexivity|].
  cbn [app ks_chord_loop].
  destruct (freq note) as [f|e]; [|reflexivity]. cbn [mbind result_bind].
  destruct (py_div (IZR Fs) f) as [q|e]; [|reflexivity]. cbn [mbind result_bind].
  destruct (np_random_randn draw (np_round q) g) as [[x g']|e]; [|reflexivity].
  cbn [mbind result_bind].
  destruct (KS x N alpha) as [v|e]; [|reflexivity]. cbn [mbind result_bind].
  destruct (np_add y (np_scale gain v)) as [y'|e]; [|reflexivity].
  cbn [mbind result_bind]. apply IH.
Qed.

End Chord_facts.

Section Chord_sums.

Context {Rng : Type} (draw : Rng -> R * Rng).
Variables (N : Z) (alpha : R).

Lemma ks_chord_loop_length (chord : list (string * R)) :
  forall y g y' g',
    len y = N -> ks_chord_loop draw chord N alpha y g = Ok (y', g') -> len y' = N.
Proof.
  induction chord as [|[note gain] rest IH]; intros y g y' g' Hy; cbn [ks_chord_loop].
  - intros [= <- _]. assumption.
  - destruct (freq note) as [f|e]; [|discriminate]. cbn [mbind result_bind].
    destruct (py_div (IZR Fs) f) as [q|e]; [|discriminate]. cbn [mbind result_bind].
    destruct (np_random_randn draw (np_round q) g) as [[x g1]|e]; [|discriminate].
    cbn [mbind result_bind].
    destruct (KS x N alpha) as [v|e] eqn:Hv; [|discriminate]. cbn [mbind result_bind].
    apply KS_ok_length in Hv.
    rewrite np_add_same_length by (rewrite len_np_scale; lia).
    cbn [mbind result_bind]. apply IH.
    rewrite len_zip_plus; [assumption | rewrite len_np_scale; lia].
Qed.

End Chord_sums.

(** For a chord of well-formed notes, [N >= 0] and [0 <= alpha <= 1],
    [ks_chord] does not raise and returns [N] samples. *)
Theorem ks_chord_well_formed {Rng : Type} (draw : Rng -> R * Rng)
    (chord : list (string * R)) (N : Z) (alpha : R) (g : Rng) :
  Forall (fun item => well_formed_note (fst item)) chord ->
  0 <= N -> (0 <= alpha <= 1)%R ->
  exists y g', ks_chord draw chord N alpha g = Ok (y, g') /\ len y = N.
Proof.
  intros Hwf HN [Halpha _]. unfold ks_chord, np_zeros.
  destruct (Z.ltb_spec N 0); [lia|]. cbn [mbind result_bind].
  apply ks_chord_loop_well_formed; try assumption.
  unfold len. rewrite length_replicate. lia.
Qed.

Lemma hdn_chord_well_formed :
  Forall (fun item => well_formed_note (fst item)) hdn_chord.
Proof.
  unfold hdn_chord. repeat constructor; cbn [fst].
  - exists (mkPitch LD Natural 2). split; [simpl; lia | reflexivity].
  - exists (mkPitch LD Natural 3). split; [simpl; lia | reflexivity].
  - exists (mkPitch LF Natural 3). split; [simpl; lia | reflexivity].
  - exists (mkPitch LG Natural 3). split; [simpl; lia | reflexivity].
  - exists (mkPitch LF Natural 4). split; [simpl; lia | reflexivity].
  - exists (mkPitch LA Natural 4). split; [simpl; lia | reflexivity].
  - exists (mkPitch LC Natural 5). split; [simpl; lia | reflexivity].
  - exists (mkPitch LG Natural 5). split; [simpl; lia | reflexivity].
Qed.

Lemma ks_chord_well_formed_witness :
  exists y g', ks_chord (fun g : unit => (0%R, g)) hdn_chord (Fs * 4) 0.995 tt
               = Ok (y, g') /\ len y = Fs * 4.
Proof.
  apply (ks_chord_well_formed (fun g : unit => (0%R, g)) hdn_chord (Fs * 4) 0.995 tt).
  - exact hdn_chord_well_formed.
  - unfold Fs. lia.
  - lra.
Defined.

(** A malformed note fails the whole chord ([N >= 0],
    [0 <= alpha <= 1]).  After any well-formed
    notes, a note for which [freq] returns 0 makes [ks_chord] raise
    [ZeroDivisionError] (the division [Fs / freq(note)]), and a note on
    which [freq] raises makes it raise the same exception; the notes
    that follow are not looked at. *)
Theorem ks_chord_malformed_note {Rng : Type} (draw : Rng -> R * Rng)
    (pre rest : list (string * R)) (note : string) (gain : R)
    (N : Z) (alpha : R) (g : Rng) :
  Forall (fun item => well_formed_note (fst item)) pre ->
  0 <= N -> (0 <= alpha <= 1)%R ->
  (freq note = Ok 0%R ->
   ks_chord draw (pre ++ (note, gain) :: rest) N alpha g = Raise ZeroDivisionError) /\
  (forall e, freq note = Raise e ->
   ks_chord draw (pre ++ (note, gain) :: rest) N alpha g = Raise e).
Proof.
  intros Hwf HN [Halpha _].
  assert (Hrun : exists y1 g1,
            ks_chord draw (pre ++ (note, gain) :: rest) N alpha g
            = ks_chord_loop draw ((note, gain) :: rest) N alpha y1 g1).
  { unfold ks_chord, np_zeros. destruct (Z.ltb_spec N 0); [lia|].
    cbn [mbind result_bind]. rewrite ks_chord_loop_app.
    destruct (ks_chord_loop_well_formed draw pre N alpha Hwf HN Halpha
                (replicate (Z.to_nat N) 0%R) g) as (y1 & g1 & Hpre & _).
    { unfold len. rewrite length_replicate. lia. }
    rewrite Hpre. eauto. }
  destruct Hrun as (y1 & g1 & ->). cbn [ks_chord_loop]. split.
  - intros ->. cbn [mbind result_bind]. unfold py_div.
    destruct (Req_dec_T 0 0) as [_|?]; [reflexivity | contradiction].
  - intros e ->. reflexivity.
Qed.

Lemma ks_chord_malformed_note_witness :
  ks_chord (fun g : unit => (0%R, g))
    ([("A4"%string, 1%R)] ++ ("H4"%string, 1%R) :: [("C5"%string, 1%R)])
    10 (1 / 2) tt = Raise ZeroDivisionError /\
  ks_chord (fun g : unit => (0%R, g))
    ([("A4"%string, 1%R)] ++ ("Ax"%string, 1%R) :: [("C5"%string, 1%R)])
    10 (1 / 2) tt = Raise ValueError.
Proof.
  assert (Hwf : Forall (fun item : string * R => well_formed_note (fst item))
                  [("A4"%string, 1%R)]).
  { repeat constructor. exists (mkPitch LA Natural 4).
    split; [simpl; lia | reflexivity]. }
  split.
  - apply (proj1 (ks_chord_malformed_note (fun g : unit => (0%R, g))
             [("A4"%string, 1%R)] [("C5"%string, 1%R)] "H4" 1 10 (1 / 2) tt
             Hwf ltac:(lia) ltac:(lra))).
    reflexivity.
  - apply (proj2 (ks_chord_malformed_note (fun g : unit => (0%R, g))
             [("A4"%string, 1%R)] [("C5"%string, 1%R)] "Ax" 1 10 (1 / 2) tt
             Hwf ltac:(lia) ltac:(lra))).
    reflexivity.
Defined.

(** A chord of one well-formed note, with [N >= 0] and
    [0 <= alpha <= 1]: the excitation drawn has
    [M = round(Fs / f)] samples, with [M >= 1] and [M] within one half of
    [Fs / f], and the output is [gain] times what [KS] makes of it. *)
Theorem ks_chord_single_note {Rng : Type} (draw : Rng -> R * Rng)
    (p : Pitch) (gain : R) (N : Z) (alpha : R) (g : Rng) :
  0 <= octave p <= 9 -> 0 <= N -> (0 <= alpha <= 1)%R ->
  exists x g' v,
    len x = np_round (IZR Fs / equal_tempered p) /\
    randn_loop draw (Z.to_nat (len x)) g = (x, g') /\
    1 <= len x /\
    (Rabs (IZR (len x) - IZR Fs / equal_tempered p) <= 1 / 2)%R /\
    KS x N alpha = Ok v /\
    ks_chord draw [(note_name p, gain)] N alpha g = Ok (np_scale gain v, g').
Proof.
  intros Ho HN [Halpha _].
  assert (Hz : len (replicate (Z.to_nat N) 0%R) = N)
    by (unfold len; rewrite length_replicate; lia).
  destruct (ks_chord_loop_step draw p gain [] N alpha
              (replicate (Z.to_nat N) 0%R) g Ho HN Halpha Hz)
    as (x & g' & v & Hx & Hlx & HM & Hnear & Hv & Hlv & Hstep).
  exists x, g', v. rewrite Hlx. repeat split; try assumption.
  unfold ks_chord, np_zeros. destruct (Z.ltb_spec N 0); [lia|].
  cbn [mbind result_bind]. rewrite Hstep. cbn [ks_chord_loop].
  do 2 f_equal.
  replace (Z.to_nat N) with (length (np_scale gain v))
    by (pose proof (len_np_scale gain v) as Hl; unfold len in *; lia).
  apply zip_plus_zeros.
Qed.

Lemma ks_chord_single_note_witness :
  exists x g' v,
    len x = np_round (IZR Fs / equal_tempered (mkPitch LA Natural 4)) /\
    randn_loop (fun g : unit => (1%R, g)) (Z.to_nat (len x)) tt = (x, g') /\
    1 <= len x /\
    (Rabs (IZR (len x) - IZR Fs / equal_tempered (mkPitch LA Natural 4)) <= 1 / 2)%R /\
    KS x 100 (99 / 100) = Ok v /\
    ks_chord (fun g : unit => (1%R, g)) [(note_name (mkPitch LA Natural 4), 2%R)]
      100 (99 / 100) tt = Ok (np_scale 2 v, g').
Proof.
  apply (ks_chord_single_note (fun g : unit => (1%R, g))
           (mkPitch LA Natural 4) 2 100 (99 / 100) tt).
  - simpl. lia.
  - lia.
  - lra.
Defined.

(** One more note adds its own output ([-1 <= alpha <= 1]): when
    [ks_chord] returns [y1] for a chord and, from the random state it
    left, [y2] for a note on its own, it returns [y1 + y2] for the chord
    with that note put last.  The sum is the one the loop performs:
    [y2] is [0 + gain * KS(x)], and the loop adds [gain * KS(x)] to
    [y1]. *)
Theorem ks_chord_superposition {Rng : Type} (draw : Rng -> R * Rng)
    (c1 : list (string * R)) (note : string) (gain : R) (N : Z) (alpha : R)
    (g g1 g2 : Rng) (y1 y2 : list R) :
  (-1 <= alpha <= 1)%R ->
  ks_chord draw c1 N alpha g = Ok (y1, g1) ->
  ks_chord draw [(note, gain)] N alpha g1 = Ok (y2, g2) ->
  ks_chord draw (c1 ++ [(note, gain)]) N alpha g = Ok (zip_with Rplus y1 y2, g2).
Proof.
  intros _. unfold ks_chord, np_zeros. destruct (Z.ltb_spec N 0); [discriminate|].
  cbn [mbind result_bind]. intros H1 H2.
  assert (Hz : len (replicate (Z.to_nat N) 0%R) = N)
    by (unfold len; rewrite length_replicate; lia).
  pose proof (ks_chord_loop_length draw N alpha c1 _ _ _ _ Hz H1) as Hy1.
  rewrite ks_chord_loop_app, H1.
  cbn [ks_chord_loop] in *.
  destruct (freq note) as [f|e]; [|discriminate]. cbn [mbind result_bind] in *.
  destruct (py_div (IZR Fs) f) as [q|e]; [|discriminate]. cbn [mbind result_bind] in *.
  destruct (np_random_randn draw (np_round q) g1) as [[x g']|e]; [|discriminate].
  cbn [mbind result_bind] in *.
  destruct (KS x N alpha) as [v|e] eqn:Hv; [|discriminate].
  cbn [mbind result_bind] in *.
  apply KS_ok_length in Hv.
  rewrite np_add_same_length in H2 by (rewrite len_np_scale; lia).
  rewrite np_add_same_length by (rewrite len_np_scale; lia).
  cbn [mbind result_bind] in *. injection H2 as <- <-.
  do 3 f_equal.
  replace (Z.to_nat N) with (length (np_scale gain v))
    by (pose proof (len_np_scale gain v) as Hl; unfold len in *; lia).
  symmetry. apply zip_plus_zeros.
Qed.

Lemma ks_chord_superposition_witness :
  exists y1 y2 g2,
    ks_chord (fun g : unit => (1%R, g))
      ([("A4"%string, 1%R)] ++ [("C5"%string, 2%R)]) 20 (1 / 2) tt
    = Ok (zip_with Rplus y1 y2, g2).
Proof.
  assert (Hwf : forall note, well_formed_note note ->
            forall gain g, exists y g',
              ks_chord (fun g : unit => (1%R, g)) [(note, gain)] 20 (1 / 2) g
              = Ok (y, g')).
  { intros note Hn gain g.
    destruct (ks_chord_loop_well_formed (fun g : unit => (1%R, g))
                [(note, gain)] 20 (1 / 2)) with (y := replicate 20 0%R) (g := g)
      as (y & g' & Hy & _); [repeat constructor; exact Hn | lia | lra | reflexivity |].
    exists y, g'. exact Hy. }
  destruct (Hwf "A4"%string) with (gain := 1%R) (g := tt) as (y1 & g1 & H1).
  { exists (mkPitch LA Natural 4). split; [simpl; lia | reflexivity]. }
  destruct (Hwf "C5"%string) with (gain := 2%R) (g := g1) as (y2 & g2 & H2).
  { exists (mkPitch LC Natural 5). split; [simpl; lia | reflexivity]. }
  exists y1, y2, g2.
  apply ks_chord_superposition with (g1 := g1); [lra | exact H1 | exact H2].
Defined.
